(** * ChunkVault: chunking, replication, quorum and integrity pipeline

    A shallow embedding of the coordinator ([app.py]), the task runner
    ([celery_app.py]), the storage node ([storage_node.py]) and the cache
    ([cache.py]), with the properties of the specification stated and
    settled against it.

    Conventions.
    - Python [int] is [Z]; [len] is [Zlength]; [//] is [Z.div] (both floor).
    - [bytes] is [list byte]; [str] is [string], the UTF-8 encoding of
      the text.
    - The relational store is a record of row lists in insertion order; a
      session's [commit] is atomic and enforces the primary keys.
    - Status strings are enumerations.
    - Randomness ([uuid.uuid4], [random.sample]) and the clock
      ([datetime.utcnow]) are explicit inputs. *)

From Stdlib Require Import ZArith Lia List String Ascii Bool.
From Stdlib.Strings Require Import Byte.
From stdpp Require Import gmap strings list.
Import ListNotations.

Abbreviation bytes := (list byte).

(** ** SHA-256 ([hashlib.sha256], FIPS 180-4) *)

Module SHA256.
Local Open Scope Z_scope.

Definition w32 (x : Z) : Z := x mod 2 ^ 32.
Definition add32 (x y : Z) : Z := w32 (x + y).
Definition rotr (n x : Z) : Z :=
  Z.lor (Z.shiftr x n) (w32 (Z.shiftl x (32 - n))).
Definition shr (n x : Z) : Z := Z.shiftr x n.
Definition not32 (x : Z) : Z := w32 (Z.lnot x).

Definition Ch (x y z : Z) : Z := Z.lxor (Z.land x y) (Z.land (not32 x) z).
Definition Maj (x y z : Z) : Z :=
  Z.lxor (Z.lxor (Z.land x y) (Z.land x z)) (Z.land y z).
Definition Sigma0 (x : Z) : Z := Z.lxor (Z.lxor (rotr 2 x) (rotr 13 x)) (rotr 22 x).
Definition Sigma1 (x : Z) : Z := Z.lxor (Z.lxor (rotr 6 x) (rotr 11 x)) (rotr 25 x).
Definition sigma0 (x : Z) : Z := Z.lxor (Z.lxor (rotr 7 x) (rotr 18 x)) (shr 3 x).
Definition sigma1 (x : Z) : Z := Z.lxor (Z.lxor (rotr 17 x) (rotr 19 x)) (shr 10 x).

(** The round constants are defined from the primes, as the standard
    defines them: the first 32 bits of the fractional part of the cube
    root (for [K]) or square root (for [H0]) of each of the first primes. *)
Definition is_prime (n : nat) : bool :=
  forallb (fun d => negb (Nat.eqb (Nat.modulo n d) 0)) (seq 2 (n - 2)).

Definition primes : list Z :=
  Eval vm_compute in map Z.of_nat (List.filter is_prime (seq 2 310)).

(** The integer cube root of [n], found bit by bit from bit [bits - 1] down. *)
Fixpoint cube_root (bits : nat) (n r : Z) : Z :=
  match bits with
  | O => r
  | S k =>
      let r' := r + 2 ^ Z.of_nat k in
      cube_root k n (if r' * r' * r' <=? n then r' else r)
  end.

Definition K : list Z :=
  Eval vm_compute in map (fun p => w32 (cube_root 36 (p * 2 ^ 96) 0)) primes.

Definition byteZ (b : byte) : Z := Z.of_N (Byte.to_N b).

Definition Zbyte (z : Z) : byte :=
  match Byte.of_N (Z.to_N (z mod 256)) with
  | Some b => b
  | None => x00
  end.

(** Big-endian encoding of [z] on [n] bytes. *)
Fixpoint be_bytes (n : nat) (z : Z) : bytes :=
  match n with
  | O => []
  | S k => Zbyte (Z.shiftr z (8 * Z.of_nat k)) :: be_bytes k z
  end.

Definition pad (msg : bytes) : bytes :=
  let l := Zlength msg in
  msg ++ [x80] ++ repeat x00 (Z.to_nat ((55 - l) mod 64)) ++ be_bytes 8 (8 * l).

Fixpoint be_words (fuel : nat) (bs : list Z) : list Z :=
  match fuel, bs with
  | S k, a :: b :: c :: d :: rest =>
      (Z.shiftl a 24 + Z.shiftl b 16 + Z.shiftl c 8 + d) :: be_words k rest
  | _, _ => []
  end.

Definition nthZ (l : list Z) (i : nat) : Z := nth i l 0.

(** Message schedule: [w] holds W_0 .. W_(t-1); extend it [fuel] times. *)
Fixpoint schedule (fuel : nat) (w : list Z) : list Z :=
  match fuel with
  | O => w
  | S k =>
      let t := length w in
      let wt := add32 (add32 (sigma1 (nthZ w (t - 2))) (nthZ w (t - 7)))
                      (add32 (sigma0 (nthZ w (t - 15))) (nthZ w (t - 16))) in
      schedule k (w ++ [wt])
  end.

Record regs := Regs { ra : Z; rb : Z; rc : Z; rd : Z; re : Z; rf : Z; rg : Z; rh : Z }.

Definition root_word (i : nat) : Z :=
  w32 (Z.sqrt (nth i primes 0 * 2 ^ 64)).

Definition H0 : regs :=
  Eval vm_compute in
    Regs (root_word 0) (root_word 1) (root_word 2) (root_word 3)
         (root_word 4) (root_word 5) (root_word 6) (root_word 7).

Definition round (r : regs) (kw : Z * Z) : regs :=
  let '(k, w) := kw in
  let t1 := add32 (add32 (add32 (rh r) (Sigma1 (re r))) (add32 (Ch (re r) (rf r) (rg r)) k)) w in
  let t2 := add32 (Sigma0 (ra r)) (Maj (ra r) (rb r) (rc r)) in
  Regs (add32 t1 t2) (ra r) (rb r) (rc r) (add32 (rd r) t1) (re r) (rf r) (rg r).

Definition compress (h : regs) (block : list Z) : regs :=
  let w := schedule 48 (be_words 16 block) in
  let r := fold_left round (combine K w) h in
  Regs (add32 (ra h) (ra r)) (add32 (rb h) (rb r)) (add32 (rc h) (rc r)) (add32 (rd h) (rd r))
       (add32 (re h) (re r)) (add32 (rf h) (rf r)) (add32 (rg h) (rg r)) (add32 (rh h) (rh r)).

Fixpoint blocks (fuel : nat) (h : regs) (bs : list Z) : regs :=
  match fuel with
  | O => h
  | S k => blocks k (compress h (firstn 64 bs)) (skipn 64 bs)
  end.

Definition digest_words (msg : bytes) : list Z :=
  let p := map byteZ (pad msg) in
  let h := blocks (Nat.div (length p) 64) H0 p in
  [ra h; rb h; rc h; rd h; re h; rf h; rg h; rh h].

Definition digest (msg : bytes) : bytes := flat_map (be_bytes 4) (digest_words msg).

Definition hex_digit (z : Z) : ascii :=
  nth (Z.to_nat z) (list_ascii_of_string "0123456789abcdef") "0"%char.

Definition hex_byte (b : byte) : list ascii :=
  [hex_digit (byteZ b / 16); hex_digit (byteZ b mod 16)].

Definition hexdigest (msg : bytes) : string :=
  string_of_list_ascii (flat_map hex_byte (digest msg)).

End SHA256.

Local Open Scope Z_scope.

(** A [bytes] literal, written as the string of its characters. *)
Definition bytes_of (s : string) : bytes := list_byte_of_string s.

(** ** Configuration ([app.py], [storage_node.py]) *)

Definition CHUNK_SIZE : Z := 4 * 1024 * 1024.
Definition REPLICATION_FACTOR : Z := 3.
Definition STORAGE_NODES : list string :=
  ["http://localhost:8001"; "http://localhost:8002"; "http://localhost:8003"]%string.
Definition MAX_CHUNK_SIZE : Z := 100 * 1024 * 1024.

(** ** Database models ([app.py]). The [created_at]/[updated_at] columns
    are clock defaults that no modelled operation reads; they are left out. *)

Inductive FileStatus :=
  file_uploading | file_completed | file_failed | file_verified | file_corrupted.
Inductive ChunkStatus := chunk_pending | chunk_stored | chunk_failed.

#[global] Instance FileStatus_eq_dec : EqDecision FileStatus.
Proof. solve_decision. Defined.
#[global] Instance ChunkStatus_eq_dec : EqDecision ChunkStatus.
Proof. solve_decision. Defined.

Module File.
Record t := mk {
  id : string; filename : string; owner_id : string; size : Z;
  mime_type : string; version : Z; status : FileStatus;
  checksum : string; chunk_count : Z }.
Definition set_status (s : FileStatus) (f : t) : t :=
  mk (id f) (filename f) (owner_id f) (size f) (mime_type f) (version f) s
     (checksum f) (chunk_count f).
End File.

Module Chunk.
Record t := mk {
  id : string; file_id : string; chunk_index : Z; size : Z;
  checksum : string; status : ChunkStatus }.
Definition set_status (s : ChunkStatus) (c : t) : t :=
  mk (id c) (file_id c) (chunk_index c) (size c) (checksum c) s.
End Chunk.

Module ChunkReplica.
Record t := mk { id : string; chunk_id : string; storage_node_id : string }.
End ChunkReplica.

Module FileShare.
Record t := mk {
  id : string; file_id : string; owner_id : string; share_token : string;
  expires_at : option Z; access_count : Z }.
Definition set_access_count (n : Z) (s : t) : t :=
  mk (id s) (file_id s) (owner_id s) (share_token s) (expires_at s) n.
End FileShare.

(** The committed content of the relational store, one list per table. *)
Record Db := mkDb {
  files : list File.t;
  chunks : list Chunk.t;
  chunk_replicas : list ChunkReplica.t;
  file_shares : list FileShare.t }.

(** Primary-key check of an INSERT batch: the new keys are pairwise
    distinct and none is already in the table. *)
Definition pk_ok (existing new : list string) : bool :=
  bool_decide (NoDup new)
  && forallb (fun k => negb (bool_decide (k ∈ existing))) new.

(** [db.commit()] of a session that added the given rows: atomic; [None]
    is the IntegrityError of a primary-key collision (nothing is written). *)
Definition commit_inserts (db : Db) (fs : list File.t) (cs : list Chunk.t)
    (rs : list ChunkReplica.t) : option Db :=
  if pk_ok (map File.id (files db)) (map File.id fs)
     && pk_ok (map Chunk.id (chunks db)) (map Chunk.id cs)
     && pk_ok (map ChunkReplica.id (chunk_replicas db)) (map ChunkReplica.id rs)
  then Some (mkDb (files db ++ fs) (chunks db ++ cs)
                  (chunk_replicas db ++ rs) (file_shares db))
  else None.

(** UPDATE ... WHERE id = key, on each table that the code updates. *)
Definition update_chunk_status (key : string) (s : ChunkStatus) (db : Db) : Db :=
  mkDb (files db)
       (map (fun c => if decide (Chunk.id c = key) then Chunk.set_status s c else c)
            (chunks db))
       (chunk_replicas db) (file_shares db).

Definition update_file_status (key : string) (s : FileStatus) (db : Db) : Db :=
  mkDb (map (fun f => if decide (File.id f = key) then File.set_status s f else f)
            (files db))
       (chunks db) (chunk_replicas db) (file_shares db).

Definition update_share_access_count (key : string) (n : Z) (db : Db) : Db :=
  mkDb (files db) (chunks db) (chunk_replicas db)
       (map (fun s => if decide (FileShare.id s = key)
                      then FileShare.set_access_count n s else s)
            (file_shares db)).

(** [.first()] of a filtered query. *)
Definition first {A} (p : A -> bool) (rows : list A) : option A := List.find p rows.

(** [.order_by(Chunk.chunk_index)]: ascending, insertion order among equals. *)
Fixpoint insert_by_index (c : Chunk.t) (l : list Chunk.t) : list Chunk.t :=
  match l with
  | [] => [c]
  | x :: t =>
      if Chunk.chunk_index c <=? Chunk.chunk_index x then c :: l
      else x :: insert_by_index c t
  end.

Definition order_by_chunk_index (l : list Chunk.t) : list Chunk.t :=
  foldr insert_by_index [] l.

Definition chunks_of_file (db : Db) (file_id : string) : list Chunk.t :=
  List.filter (fun c => bool_decide (Chunk.file_id c = file_id)) (chunks db).

(** [[replica.storage_node_id for replica in replicas]] of the chunk. *)
Definition replica_nodes (db : Db) (chunk_id : string) : list string :=
  map ChunkReplica.storage_node_id
      (List.filter (fun r => bool_decide (ChunkReplica.chunk_id r = chunk_id))
                   (chunk_replicas db)).

(** ** Storage nodes ([storage_node.py]) seen through HTTP

    A node is reachable or not; [disk] is the chunk files that the nodes
    hold. [net_log] records each request in the order it was sent. *)

Inductive Request :=
| POST (node_url chunk_id : string)
| GET (node_url chunk_id : string).

Record World := mkWorld {
  online : gset string;
  disk : gmap (string * string) bytes;
  net_log : list Request }.

(** [requests.post(f"{node_url}/chunk/{chunk_id}", data=chunk_data,
    headers={"Content-Type": "application/octet-stream"})]: [None] is a
    raised exception (node unreachable). [store_chunk] declares its body
    as the multipart field [file: UploadFile = File(...)], which the raw
    body of this request does not carry: a reachable node answers 422
    before the handler body runs, and writes nothing. *)
Definition http_post (w : World) (node_url chunk_id : string) (data : bytes)
    : option Z * World :=
  let w' := mkWorld (online w) (disk w) (net_log w ++ [POST node_url chunk_id]) in
  if decide (node_url ∈ online w) then (Some 422, w') else (None, w').

(** [requests.get(f"{node_url}/chunk/{chunk_id}")]: status code and body of
    [retrieve_chunk], or [None] when the request raises. *)
Definition http_get (w : World) (node_url chunk_id : string)
    : option (Z * bytes) * World :=
  let w' := mkWorld (online w) (disk w) (net_log w ++ [GET node_url chunk_id]) in
  if decide (node_url ∈ online w) then
    match disk w !! (node_url, chunk_id) with
    | Some data => (Some (200, data), w')
    | None => (Some (404, []), w')
    end
  else (None, w').

(** ** Cache ([cache.py]): one finite map per key namespace. Entries leave
    by TTL; the operations below are stated for every cache content. *)

Definition in_range (lo hi : Z) (b : byte) : bool :=
  (lo <=? SHA256.byteZ b) && (SHA256.byteZ b <=? hi).

(** Whether [data] is the UTF-8 encoding of a text, as the strict decoder
    of [bytes.decode] checks it: no overlong form, no surrogate, nothing
    above U+10FFFF. *)
Fixpoint utf8_valid (data : bytes) : bool :=
  match data with
  | [] => true
  | b :: rest =>
      if in_range 0 127 b then utf8_valid rest
      else if in_range 194 223 b then
        match rest with
        | b1 :: rest1 => in_range 128 191 b1 && utf8_valid rest1
        | _ => false
        end
      else if in_range 224 239 b then
        match rest with
        | b1 :: b2 :: rest2 =>
            in_range (if in_range 224 224 b then 160 else 128)
                     (if in_range 237 237 b then 159 else 191) b1
            && in_range 128 191 b2 && utf8_valid rest2
        | _ => false
        end
      else if in_range 240 244 b then
        match rest with
        | b1 :: b2 :: b3 :: rest3 =>
            in_range (if in_range 240 240 b then 144 else 128)
                     (if in_range 244 244 b then 143 else 191) b1
            && in_range 128 191 b2 && in_range 128 191 b3 && utf8_valid rest3
        | _ => false
        end
      else false
  end.

Record Cache := mkCache {
  user_files : gmap string (list File.t);
  file_metadata : gmap string File.t;
  chunk_data : gmap string bytes;
  share_info : gmap string FileShare.t }.

Definition invalidate_user_files (c : Cache) (user_id : string) : Cache :=
  mkCache (delete user_id (user_files c)) (file_metadata c) (chunk_data c) (share_info c).
Definition get_file_metadata (c : Cache) (file_id : string) : option File.t :=
  file_metadata c !! file_id.
Definition set_file_metadata (c : Cache) (file_id : string) (metadata : File.t) : Cache :=
  mkCache (user_files c) (<[file_id := metadata]> (file_metadata c)) (chunk_data c) (share_info c).
(** [get_chunk_data]. The client is built with [decode_responses=True]:
    it returns the stored value decoded, a [str] (given here by its UTF-8
    encoding); for a value that is not UTF-8 the decoding raises, which the
    method catches and answers with [None]. *)
Definition get_chunk_data (c : Cache) (chunk_id : string) : option bytes :=
  match chunk_data c !! chunk_id with
  | Some data => if utf8_valid data then Some data else None
  | None => None
  end.
Definition set_chunk_data (c : Cache) (chunk_id : string) (data : bytes) : Cache :=
  mkCache (user_files c) (file_metadata c) (<[chunk_id := data]> (chunk_data c)) (share_info c).
Definition get_share_info (c : Cache) (share_token : string) : option FileShare.t :=
  share_info c !! share_token.
Definition set_share_info (c : Cache) (share_token : string) (info : FileShare.t) : Cache :=
  mkCache (user_files c) (file_metadata c) (chunk_data c) (<[share_token := info]> (share_info c)).

(** ** Utility functions ([app.py]) *)

Definition calculate_checksum (data : bytes) : string := SHA256.hexdigest data.

(** Python slicing [data[start:end_]] for bounds that are not negative
    (the only ones [upload_file] computes). *)
Fixpoint py_drop {A} (n : Z) (l : list A) : list A :=
  match l with
  | [] => []
  | _ :: t => if n <=? 0 then l else py_drop (n - 1) t
  end.

Fixpoint py_take {A} (n : Z) (l : list A) : list A :=
  match l with
  | [] => []
  | x :: t => if n <=? 0 then [] else x :: py_take (n - 1) t
  end.

Definition slice {A} (start end_ : Z) (l : list A) : list A :=
  py_take (end_ - start) (py_drop start l).

(** [range(n)] *)
Definition range (n : Z) : list Z := map Z.of_nat (seq 0 (Z.to_nat n)).

(** [random.sample(pool, k)]: sampling without replacement, driven by the
    draws of the generator ([r mod m] is the draw below [m]). *)
Fixpoint sample (pool : list string) (k : nat) (draws : list nat) : list string :=
  match k with
  | O => []
  | S k' =>
      let j := (hd 0 draws mod length pool)%nat in
      match pool !! j with
      | Some x => x :: sample (delete j pool) k' (tl draws)
      | None => []
      end
  end.

Definition assign_storage_nodes (draws : list nat) : list string :=
  sample STORAGE_NODES
         (Z.to_nat (Z.min REPLICATION_FACTOR (Zlength STORAGE_NODES))) draws.

Arguments calculate_checksum : simpl never.

(** ** Task runner ([celery_app.py]) *)

Definition quorum (replication_factor : Z) : Z := replication_factor / 2 + 1.

Definition replica_id (chunk_id node_url : string) : string :=
  (chunk_id ++ "_" ++ node_url)%string.

Definition new_replica (chunk_id node_url : string) : ChunkReplica.t :=
  ChunkReplica.mk (replica_id chunk_id node_url) chunk_id node_url.

(** The PUT loop of [replicate_chunk]. *)
Fixpoint post_to_nodes (w : World) (chunk_id : string) (chunk_data : bytes)
    (storage_nodes : list string) (success_count : Z) (failed_nodes : list string)
    : Z * list string * World :=
  match storage_nodes with
  | [] => (success_count, failed_nodes, w)
  | node_url :: rest =>
      match http_post w node_url chunk_id chunk_data with
      | (Some code, w1) =>
          if decide (code = 200)
          then post_to_nodes w1 chunk_id chunk_data rest (success_count + 1) failed_nodes
          else post_to_nodes w1 chunk_id chunk_data rest success_count
                             (failed_nodes ++ [node_url])
      | (None, w1) =>
          post_to_nodes w1 chunk_id chunk_data rest success_count
                        (failed_nodes ++ [node_url])
      end
  end.

(** What a task execution ends with: its return value, or the exception
    that [self.retry] re-raises. *)
Inductive TaskOutcome (A : Type) :=
| Returned (result : A)
| Raised.
Arguments Returned {A} result.
Arguments Raised {A}.

Record ReplicateResult := mkReplicateResult {
  rr_chunk_id : string;
  rr_success_count : Z;
  rr_failed_nodes : list string;
  rr_status : ChunkStatus }.

Definition replicate_chunk (db : Db) (w : World) (chunk_id : string)
    (chunk_data : bytes) (storage_nodes : list string) (replication_factor : Z)
    : TaskOutcome ReplicateResult * Db * World :=
  let '(success_count, failed_nodes, w') :=
    post_to_nodes w chunk_id chunk_data storage_nodes 0 [] in
  let result :=
    mkReplicateResult chunk_id success_count failed_nodes
      (if success_count >=? quorum replication_factor
       then chunk_stored else chunk_failed) in
  match first (fun c => bool_decide (Chunk.id c = chunk_id)) (chunks db) with
  | Some _ =>
      if success_count >=? quorum replication_factor then
        let replicas :=
          map (new_replica chunk_id)
              (List.filter (fun n => negb (bool_decide (n ∈ failed_nodes)))
                           storage_nodes) in
        match commit_inserts (update_chunk_status chunk_id chunk_stored db)
                             [] [] replicas with
        | Some db' => (Returned result, db', w')
        | None => (Raised, db, w')
        end
      else (Returned result, update_chunk_status chunk_id chunk_failed db, w')
  | None => (Returned result, db, w')
  end.

(** The GET loop shared by [retrieve_chunk_from_nodes] and
    [verify_file_integrity]: the body of the first node answering 200. *)
Fixpoint get_from_nodes (w : World) (chunk_id : string) (storage_nodes : list string)
    : option bytes * World :=
  match storage_nodes with
  | [] => (None, w)
  | node_url :: rest =>
      match http_get w node_url chunk_id with
      | (Some (code, content), w1) =>
          if decide (code = 200) then (Some content, w1)
          else get_from_nodes w1 chunk_id rest
      | (None, w1) => get_from_nodes w1 chunk_id rest
      end
  end.

(** Python truthiness of a [bytes] or [str] value or of [None]. *)
Definition truthy (data : option bytes) : bool :=
  match data with
  | Some (_ :: _) => true
  | _ => false
  end.

Inductive CorruptedChunk :=
| checksum_mismatch (chunk_id expected_checksum calculated_checksum : string)
| chunk_not_found (chunk_id : string).

Inductive VerifyResult :=
| verify_not_found (file_id : string)
| verify_done (file_id : string) (status : FileStatus)
              (corrupted_chunks : list CorruptedChunk).

(** The loop over the chunks of [verify_file_integrity]. *)
Fixpoint verify_chunks (db : Db) (w : World) (cs : list Chunk.t)
    (corrupted_chunks : list CorruptedChunk) : list CorruptedChunk * World :=
  match cs with
  | [] => (corrupted_chunks, w)
  | chunk :: rest =>
      let storage_nodes := replica_nodes db (Chunk.id chunk) in
      let '(chunk_data, w1) := get_from_nodes w (Chunk.id chunk) storage_nodes in
      if truthy chunk_data then
        let calculated_checksum := SHA256.hexdigest (default [] chunk_data) in
        if decide (calculated_checksum <> Chunk.checksum chunk)
        then verify_chunks db w1 rest
               (corrupted_chunks ++
                [checksum_mismatch (Chunk.id chunk) (Chunk.checksum chunk)
                                   calculated_checksum])
        else verify_chunks db w1 rest corrupted_chunks
      else verify_chunks db w1 rest
             (corrupted_chunks ++ [chunk_not_found (Chunk.id chunk)])
  end.

Definition verify_file_integrity (db : Db) (w : World) (file_id : string)
    : VerifyResult * Db * World :=
  match first (fun f => bool_decide (File.id f = file_id)) (files db) with
  | None => (verify_not_found file_id, db, w)
  | Some _ =>
      let '(corrupted_chunks, w') :=
        verify_chunks db w (chunks_of_file db file_id) [] in
      let status :=
        match corrupted_chunks with
        | [] => file_verified
        | _ :: _ => file_corrupted
        end in
      (verify_done file_id status corrupted_chunks,
       update_file_status file_id status db, w')
  end.

(** ** Chunk coordinator ([app.py]) *)

(** A request ends with its response or with the [HTTPException] raised. *)
Inductive Http (A : Type) :=
| Ok (response : A)
| HTTPException (status_code : Z).
Arguments Ok {A} response.
Arguments HTTPException {A} status_code.

(** [task.get] of the enqueued [replicate_chunk]; any exception is [False].
    The task runs in its own session, on the committed store; the broker
    and the 60 s deadline are not modelled. *)
Definition store_chunk_to_nodes (db : Db) (w : World) (chunk_id : string)
    (chunk_data : bytes) (storage_nodes : list string) : bool * Db * World :=
  match replicate_chunk db w chunk_id chunk_data storage_nodes REPLICATION_FACTOR with
  | (Returned result, db', w') =>
      (bool_decide (rr_status result = chunk_stored), db', w')
  | (Raised, db', w') => (false, db', w')
  end.

(** A chunk as the read path holds it: the [bytes] of a node's answer, or
    the [str] that the cache returned (given by its UTF-8 encoding). *)
Inductive Payload :=
| as_bytes (content : bytes)
| as_str (encoded : bytes).

Definition retrieve_chunk_from_nodes (cache : Cache) (w : World) (chunk_id : string)
    (storage_nodes : list string) : option Payload * Cache * World :=
  let cached_data := get_chunk_data cache chunk_id in
  if truthy cached_data then (option_map as_str cached_data, cache, w)
  else
    match get_from_nodes w chunk_id storage_nodes with
    | (Some chunk_data, w') =>
        (Some (as_bytes chunk_data), set_chunk_data cache chunk_id chunk_data, w')
    | (None, w') => (None, cache, w')
    end.

(** [b''.join(chunk_data_list)]: [None] is the TypeError at an item that
    is a [str]. *)
Fixpoint bytes_join (chunk_data_list : list Payload) : option bytes :=
  match chunk_data_list with
  | [] => Some []
  | as_bytes content :: rest =>
      match bytes_join rest with
      | Some file_data => Some (content ++ file_data)
      | None => None
      end
  | as_str _ :: _ => None
  end.

(** The values that [uuid.uuid4] and [random.sample] draw during one upload. *)
Record Entropy := mkEntropy {
  file_uuid : string;
  chunk_uuid : Z -> string;
  sample_draws : Z -> list nat }.

(** The state an upload carries through its chunk loop: the committed store
    (which only tasks change meanwhile), the nodes, the rows the session has
    added so far with their current status, and the file record's status. *)
Record UploadState := mkUploadState {
  u_db : Db;
  u_world : World;
  u_chunks : list Chunk.t;
  u_replicas : list ChunkReplica.t;
  u_file_status : FileStatus }.

Fixpoint upload_chunks (rnd : Entropy) (file_id : string) (file_data : bytes)
    (file_size : Z) (indices : list Z) (st : UploadState) : UploadState :=
  match indices with
  | [] => st
  | i :: rest =>
      let start := i * CHUNK_SIZE in
      let end_ := Z.min (start + CHUNK_SIZE) file_size in
      let chunk_data := slice start end_ file_data in
      let chunk_checksum := calculate_checksum chunk_data in
      let chunk_id := chunk_uuid rnd i in
      let chunk_record :=
        Chunk.mk chunk_id file_id i (Zlength chunk_data) chunk_checksum chunk_pending in
      let storage_nodes := assign_storage_nodes (sample_draws rnd i) in
      match store_chunk_to_nodes (u_db st) (u_world st) chunk_id chunk_data
                                 storage_nodes with
      | (true, db', w') =>
          upload_chunks rnd file_id file_data file_size rest
            (mkUploadState db' w'
               (u_chunks st ++ [Chunk.set_status chunk_stored chunk_record])
               (u_replicas st ++ map (new_replica chunk_id) storage_nodes)
               (u_file_status st))
      | (false, db', w') =>
          mkUploadState db' w'
            (u_chunks st ++ [Chunk.set_status chunk_failed chunk_record])
            (u_replicas st) file_failed
      end
  end.

Record UploadResponse := mkUploadResponse {
  resp_file_id : string;
  resp_filename : string;
  resp_size : Z;
  resp_chunk_count : Z;
  resp_status : FileStatus }.

(** [file.content_type or "application/octet-stream"] *)
Definition content_type_or_default (content_type : option string) : string :=
  match content_type with
  | Some (String a s) => String a s
  | _ => "application/octet-stream"%string
  end.

(** [upload_file]. The session only adds rows until its single commit at
    the end; a failed commit is the rollback and the 500 of the handler.
    The verification task it enqueues runs later, as a call of
    [verify_file_integrity] on the committed store. *)
Definition upload_file (rnd : Entropy) (db : Db) (cache : Cache) (w : World)
    (file_data : bytes) (filename : string) (content_type : option string)
    (current_user : string) : Http UploadResponse * Db * Cache * World :=
  let file_size := Zlength file_data in
  let file_checksum := calculate_checksum file_data in
  let file_id := file_uuid rnd in
  let chunk_count := (file_size + CHUNK_SIZE - 1) / CHUNK_SIZE in
  let st :=
    upload_chunks rnd file_id file_data file_size (range chunk_count)
      (mkUploadState db w [] [] file_uploading) in
  let status :=
    if decide (u_file_status st <> file_failed) then file_completed
    else u_file_status st in
  let file_record :=
    File.mk file_id filename current_user file_size
            (content_type_or_default content_type) 1 status file_checksum chunk_count in
  match commit_inserts (u_db st) [file_record] (u_chunks st) (u_replicas st) with
  | Some db' =>
      (Ok (mkUploadResponse file_id filename file_size chunk_count status),
       db', invalidate_user_files cache current_user, u_world st)
  | None => (HTTPException 500, u_db st, cache, u_world st)
  end.

(** The chunk loop of both download handlers. *)
Fixpoint retrieve_chunks (db : Db) (cache : Cache) (w : World) (cs : list Chunk.t)
    (chunk_data_list : list Payload) : option (list Payload) * Cache * World :=
  match cs with
  | [] => (Some chunk_data_list, cache, w)
  | chunk :: rest =>
      let storage_nodes := replica_nodes db (Chunk.id chunk) in
      match retrieve_chunk_from_nodes cache w (Chunk.id chunk) storage_nodes with
      | (Some chunk_data, cache', w') =>
          retrieve_chunks db cache' w' rest (chunk_data_list ++ [chunk_data])
      | (None, cache', w') => (None, cache', w')
      end
  end.

(** [download_file]. The TypeError of the join is not caught by the
    handler: the request ends with 500, as it does when a chunk could not
    be retrieved. *)
Definition download_file (db : Db) (cache : Cache) (w : World) (file_id : string)
    (current_user : string) : Http bytes * Cache * World :=
  let cached_metadata := get_file_metadata cache file_id in
  let lookup :=
    match cached_metadata with
    | Some metadata => Some (metadata, cache)
    | None =>
        match first (fun f => bool_decide (File.id f = file_id)
                              && bool_decide (File.owner_id f = current_user))
                    (files db) with
        | Some file_record =>
            Some (file_record, set_file_metadata cache file_id file_record)
        | None => None
        end
    end in
  match lookup with
  | None => (HTTPException 404, cache, w)
  | Some (file_record, cache1) =>
      let cs := order_by_chunk_index (chunks_of_file db file_id) in
      match retrieve_chunks db cache1 w cs [] with
      | (Some chunk_data_list, cache2, w') =>
          match bytes_join chunk_data_list with
          | Some file_data => (Ok file_data, cache2, w')
          | None => (HTTPException 500, cache2, w')
          end
      | (None, cache2, w') => (HTTPException 500, cache2, w')
      end
  end.

(** The [expires_at] attribute of the [share_record] object: a [datetime]
    when the row was loaded from the store, the string that
    [json.dumps(default=str)] wrote when the object was rebuilt from the
    cached dict ([py_str t] is the rendering of the datetime [t]). *)
Inductive PyTime :=
| py_none
| py_datetime (t : Z)
| py_str (t : Z).

(** [x and x < now] on such a value: [None] is the TypeError of comparing
    a [str] with a [datetime]. *)
Definition expired (x : PyTime) (now : Z) : option bool :=
  match x with
  | py_none => Some false
  | py_datetime t => Some (t <? now)
  | py_str _ => None
  end.

(** The [share_record] object: its attributes and whether it is attached
    to the session (a row that was queried) or transient (rebuilt from the
    cached dict by the [FileShare] constructor and never added to the
    session, so no commit writes it). *)
Record ShareRecord := mkShareRecord {
  sr_row : FileShare.t;
  sr_expires_at : PyTime;
  sr_attached : bool }.

Definition download_shared_file (db : Db) (cache : Cache) (w : World)
    (share_token : string) (now : Z) : Http bytes * Db * Cache * World :=
  let cached_share := get_share_info cache share_token in
  let lookup :=
    match cached_share with
    | Some d =>
        Some (mkShareRecord d
                (match FileShare.expires_at d with
                 | Some t => py_str t
                 | None => py_none
                 end) false, cache)
    | None =>
        match first (fun s => bool_decide (FileShare.share_token s = share_token))
                    (file_shares db) with
        | Some row =>
            Some (mkShareRecord row
                    (match FileShare.expires_at row with
                     | Some t => py_datetime t
                     | None => py_none
                     end) true,
                  set_share_info cache share_token row)
        | None => None
        end
    end in
  match lookup with
  | None => (HTTPException 404, db, cache, w)
  | Some (share_record, cache1) =>
      match expired (sr_expires_at share_record) now with
      | None => (HTTPException 500, db, cache1, w)
      | Some true => (HTTPException 410, db, cache1, w)
      | Some false =>
          let access_count := FileShare.access_count (sr_row share_record) + 1 in
          let db1 :=
            if sr_attached share_record
            then update_share_access_count (FileShare.id (sr_row share_record))
                                           access_count db
            else db in
          match first (fun f => bool_decide
                                  (File.id f = FileShare.file_id (sr_row share_record)))
                      (files db1) with
          | None => (HTTPException 404, db1, cache1, w)
          | Some file_record =>
              let cs := order_by_chunk_index (chunks_of_file db1 (File.id file_record)) in
              match retrieve_chunks db1 cache1 w cs [] with
              | (Some chunk_data_list, cache2, w') =>
                  match bytes_join chunk_data_list with
                  | Some file_data => (Ok file_data, db1, cache2, w')
                  | None => (HTTPException 500, db1, cache2, w')
                  end
              | (None, cache2, w') => (HTTPException 500, db1, cache2, w')
              end
          end
      end
  end.

(** ** Share links ([app.py], [celery_app.py]) *)

(** A [datetime] is counted in microseconds from [datetime.min];
    [datetime.max] is the last microsecond of the year 9999. *)
Definition DATETIME_MAX : Z := 3652059 * 86400 * 1000000 - 1.

(** [timedelta(hours=h)], in microseconds: [None] is the OverflowError of
    a magnitude above 999999999 days. *)
Definition timedelta_hours (h : Z) : option Z :=
  let us := h * 3600 * 1000000 in
  let days := us / (86400 * 1000000) in
  if (-999999999 <=? days) && (days <=? 999999999) then Some us else None.

(** [t + delta] on a [datetime]: [None] is the OverflowError of a result
    out of range. *)
Definition datetime_add (t delta : Z) : option Z :=
  if (0 <=? t + delta) && (t + delta <=? DATETIME_MAX) then Some (t + delta) else None.

(** [db.commit()] of a session that added one FileShare row: the primary
    key and the unique [share_token]. *)
Definition commit_share (db : Db) (s : FileShare.t) : option Db :=
  if pk_ok (map FileShare.id (file_shares db)) [FileShare.id s]
     && pk_ok (map FileShare.share_token (file_shares db)) [FileShare.share_token s]
  then Some (mkDb (files db) (chunks db) (chunk_replicas db) (file_shares db ++ [s]))
  else None.

Record ShareInfo := mkShareInfo {
  si_share_token : string;
  si_share_url : string;
  si_expires_at : option Z }.

(** [create_share]. [token_uuid] and [id_uuid] are the two values that
    [uuid.uuid4] draws, [now] is what [datetime.utcnow] reads. An exception
    that the handler does not catch (overflow of the expiry, failed commit)
    ends the request with 500 and writes nothing. *)
Definition create_share (token_uuid id_uuid : string) (db : Db) (file_id : string)
    (expires_in_hours : option Z) (current_user : string) (now : Z)
    : Http ShareInfo * Db :=
  match first (fun f => bool_decide (File.id f = file_id)
                        && bool_decide (File.owner_id f = current_user))
              (files db) with
  | None => (HTTPException 404, db)
  | Some file_record =>
      let share_token := token_uuid in
      let expiry : option (option Z) :=
        match expires_in_hours with
        | None => Some None
        | Some h =>
            if decide (h = 0) then Some None
            else match timedelta_hours h with
                 | None => None
                 | Some delta =>
                     match datetime_add now delta with
                     | None => None
                     | Some t => Some (Some t)
                     end
                 end
        end in
      match expiry with
      | None => (HTTPException 500, db)
      | Some expires_at =>
          let share_record :=
            FileShare.mk id_uuid file_id current_user share_token expires_at 0 in
          match commit_share db share_record with
          | Some db' =>
              (Ok (mkShareInfo share_token ("/share/" ++ share_token) expires_at), db')
          | None => (HTTPException 500, db)
          end
      end
  end.

(** [FileShare.expires_at < now] as the query evaluates it: a NULL
    [expires_at] is not selected. *)
Definition expires_before (now : Z) (s : FileShare.t) : bool :=
  match FileShare.expires_at s with
  | Some t => t <? now
  | None => false
  end.

(** [cleanup_expired_shares]: the selected rows are deleted by primary key
    and the number of selected rows is reported. *)
Definition cleanup_expired_shares (db : Db) (now : Z) : Z * Db :=
  let expired_shares := List.filter (expires_before now) (file_shares db) in
  let count := Zlength expired_shares in
  (count,
   mkDb (files db) (chunks db) (chunk_replicas db)
        (List.filter (fun s => negb (bool_decide (FileShare.id s
                                       ∈ map FileShare.id expired_shares)))
                     (file_shares db))).

(** ** Listing ([app.py]) *)

(** [cache_manager.get_user_files], [cache_manager.set_user_files] *)
Definition get_user_files (c : Cache) (user_id : string) : option (list File.t) :=
  user_files c !! user_id.
Definition set_user_files (c : Cache) (user_id : string) (file_list : list File.t)
    : Cache :=
  mkCache (<[user_id := file_list]> (user_files c)) (file_metadata c) (chunk_data c)
          (share_info c).

(** [.order_by(File.updated_at.desc())]. The column is a clock default set
    when the row is inserted; [updated_at] gives its value for a file id. *)
Fixpoint insert_by_updated_at (updated_at : string -> Z) (f : File.t)
    (l : list File.t) : list File.t :=
  match l with
  | [] => [f]
  | x :: t =>
      if updated_at (File.id x) <=? updated_at (File.id f) then f :: l
      else x :: insert_by_updated_at updated_at f t
  end.

Definition order_by_updated_at_desc (updated_at : string -> Z) (l : list File.t)
    : list File.t :=
  foldr (insert_by_updated_at updated_at) [] l.

(** What [list_files] answers with. A [FileInfo] is given by the row it
    is validated from. The cached list went through
    [json.dumps(..., default=str)], which writes each [FileInfo] as the
    string of its [str]: a cache hit returns those strings, not objects. *)
Inductive Listing :=
| file_infos (file_list : list File.t)
| file_info_strs (cached_files : list File.t).

Definition list_files (updated_at : string -> Z) (db : Db) (cache : Cache)
    (current_user : string) : Listing * Cache :=
  match get_user_files cache current_user with
  | Some (f :: l) => (file_info_strs (f :: l), cache)
  | _ =>
      let files :=
        order_by_updated_at_desc updated_at
          (List.filter (fun f => bool_decide (File.owner_id f = current_user))
                       (files db)) in
      (file_infos files, set_user_files cache current_user files)
  end.

(** ** Accounts ([app.py]) *)

Module User.
Record t := mk {
  id : string; username : string; email : string; password_hash : string;
  is_active : bool }.
End User.

(** [register]. [user_uuid] is the [uuid4] drawn and [password_hash] what
    [get_password_hash] returned for the password. The commit checks the
    primary key and the two unique columns. *)
Definition register (user_uuid password_hash : string) (users : list User.t)
    (username email : string) : Http string * list User.t :=
  match first (fun u => bool_decide (User.username u = username)
                        || bool_decide (User.email u = email)) users with
  | Some existing_user => (HTTPException 400, users)
  | None =>
      let user := User.mk user_uuid username email password_hash true in
      if pk_ok (map User.id users) [User.id user]
         && pk_ok (map User.username users) [User.username user]
         && pk_ok (map User.email users) [User.email user]
      then (Ok (User.id user), users ++ [user])
      else (HTTPException 500, users)
  end.

(** [login]. [verify_password] is the check of the password library; the
    response is given by the user id that the access token is issued for. *)
Definition login (verify_password : string -> string -> bool) (users : list User.t)
    (username password : string) : Http string :=
  match first (fun u => bool_decide (User.username u = username)) users with
  | None => HTTPException 401
  | Some user =>
      if negb (verify_password password (User.password_hash user))
      then HTTPException 401
      else Ok (User.id user)
  end.

(** ** Cache keys ([cache.py]): the Redis key of each kind of entry *)

Module CacheKey.
Local Open Scope string_scope.
Definition user_files (user_id : string) : string := "user_files:" ++ user_id.
Definition file_metadata (file_id : string) : string := "file_metadata:" ++ file_id.
Definition storage_stats : string := "storage_stats".
Definition storage_nodes_health : string := "storage_nodes_health".
Definition chunk_data (chunk_id : string) : string := "chunk_data:" ++ chunk_id.
Definition share_info (share_token : string) : string := "share_info:" ++ share_token.
End CacheKey.

(** ** Storage node ([storage_node.py]): the handlers on the node's volume

    The volume under [STORAGE_PATH] holds shard directories and, in them,
    one file per chunk. Reads and writes of the volume succeed (the 500
    branches of the handlers are I/O failures); chunk ids are URL path
    segments other than dot segments. [store_chunk] is given the bytes of
    its multipart field [file]. [calculate_checksum] of the node is the
    same function as the coordinator's. *)

Module StorageNode.

(** Whether a byte of a UTF-8 encoding continues a character. *)
Definition is_continuation (a : ascii) : bool :=
  (128 <=? Z.of_nat (nat_of_ascii a)) && (Z.of_nat (nat_of_ascii a) <? 192).

(** [s[:n]] on a [str]: its first [n] characters, each one a leading byte
    with the continuation bytes that follow it. *)
Fixpoint str_take (n : nat) (s : string) : string :=
  match s with
  | EmptyString => EmptyString
  | String a rest =>
      if is_continuation a then String a (str_take n rest)
      else
        match n with
        | O => EmptyString
        | S k => String a (str_take k rest)
        end
  end.

Record Volume := mkVolume {
  dirs : gset string;
  chunk_files : gmap (string * string) bytes }.

(** [get_chunk_path]: the path [STORAGE_PATH / chunk_id[:2] / chunk_id],
    given by its two components; the shard directory is created on the way. *)
Definition get_chunk_path (v : Volume) (chunk_id : string)
    : (string * string) * Volume :=
  let subdir := str_take 2 chunk_id in
  ((subdir, chunk_id), mkVolume ({[subdir]} ∪ dirs v) (chunk_files v)).

Record Stored := mkStored { st_chunk_id : string; st_checksum : string; st_size : Z }.
Record Info := mkInfo { info_chunk_id : string; info_size : Z; info_exists : bool }.
Record Stats := mkStats { total_size : Z; chunk_count : Z }.

Definition store_chunk (v : Volume) (chunk_id : string) (chunk_data : bytes)
    : Http Stored * Volume :=
  if Zlength chunk_data >? MAX_CHUNK_SIZE then (HTTPException 413, v)
  else
    let checksum := calculate_checksum chunk_data in
    let (chunk_path, v1) := get_chunk_path v chunk_id in
    (Ok (mkStored chunk_id checksum (Zlength chunk_data)),
     mkVolume (dirs v1) (<[chunk_path := chunk_data]> (chunk_files v1))).

Definition retrieve_chunk (v : Volume) (chunk_id : string) : Http bytes * Volume :=
  let (chunk_path, v1) := get_chunk_path v chunk_id in
  match chunk_files v1 !! chunk_path with
  | None => (HTTPException 404, v1)
  | Some chunk_data => (Ok chunk_data, v1)
  end.

Definition delete_chunk (v : Volume) (chunk_id : string) : Http string * Volume :=
  let (chunk_path, v1) := get_chunk_path v chunk_id in
  match chunk_files v1 !! chunk_path with
  | Some _ => (Ok chunk_id, mkVolume (dirs v1) (delete chunk_path (chunk_files v1)))
  | None => (Ok chunk_id, v1)
  end.

Definition get_chunk_info (v : Volume) (chunk_id : string) : Http Info * Volume :=
  let (chunk_path, v1) := get_chunk_path v chunk_id in
  match chunk_files v1 !! chunk_path with
  | None => (HTTPException 404, v1)
  | Some chunk_data => (Ok (mkInfo chunk_id (Zlength chunk_data) true), v1)
  end.

(** [get_storage_stats]: the walk over every file of the volume. The free
    space of the disk, which it also reports, is not part of the volume. *)
Definition get_storage_stats (v : Volume) : Stats :=
  map_fold (fun _ chunk_data s =>
              mkStats (total_size s + Zlength chunk_data) (chunk_count s + 1))
           (mkStats 0 0) (chunk_files v).

(** The requests a node serves, and the volume after a sequence of them. *)
Inductive Call :=
| Store (chunk_id : string) (chunk_data : bytes)
| Retrieve (chunk_id : string)
| Delete (chunk_id : string)
| GetInfo (chunk_id : string).

Definition serve (v : Volume) (c : Call) : Volume :=
  match c with
  | Store chunk_id chunk_data => (store_chunk v chunk_id chunk_data).2
  | Retrieve chunk_id => (retrieve_chunk v chunk_id).2
  | Delete chunk_id => (delete_chunk v chunk_id).2
  | GetInfo chunk_id => (get_chunk_info v chunk_id).2
  end.

Definition empty_volume : Volume := mkVolume ∅ ∅.
End StorageNode.

(** * Terms in which the properties are stated *)

(** ** What a sequence of requests observes

    Requests only extend [net_log]; which node answers 200, and with what,
    is determined by [online] and [disk]. *)

(** The body with which a node answers 200, if it does. *)
Definition answer (w : World) (node_url chunk_id : string) : option bytes :=
  match fst (http_get w node_url chunk_id) with
  | Some (code, content) => if decide (code = 200) then Some content else None
  | None => None
  end.

Fixpoint first_answer (w : World) (chunk_id : string) (nodes : list string)
    : option bytes :=
  match nodes with
  | [] => None
  | n :: rest =>
      match answer w n chunk_id with
      | Some d => Some d
      | None => first_answer w chunk_id rest
      end
  end.

(** The nodes a GET loop contacts: up to and including the first 200. *)
Fixpoint tried (w : World) (chunk_id : string) (nodes : list string) : list string :=
  match nodes with
  | [] => []
  | n :: rest =>
      n :: match answer w n chunk_id with
           | Some _ => []
           | None => tried w chunk_id rest
           end
  end.

Definition with_log (w : World) (l : list Request) : World :=
  mkWorld (online w) (disk w) (net_log w ++ l).

(** The entry, if any, that the verification loop appends for one chunk. *)
Definition verify_entry (db : Db) (w : World) (chunk : Chunk.t) : list CorruptedChunk :=
  let chunk_data :=
    first_answer w (Chunk.id chunk) (replica_nodes db (Chunk.id chunk)) in
  if truthy chunk_data then
    if decide (SHA256.hexdigest (default [] chunk_data) <> Chunk.checksum chunk)
    then [checksum_mismatch (Chunk.id chunk) (Chunk.checksum chunk)
                            (SHA256.hexdigest (default [] chunk_data))]
    else []
  else [chunk_not_found (Chunk.id chunk)].

Definition verify_requests (db : Db) (w : World) (chunk : Chunk.t) : list Request :=
  map (fun n => GET n (Chunk.id chunk))
      (tried w (Chunk.id chunk) (replica_nodes db (Chunk.id chunk))).

(** The PUT loop, in closed form: a node acknowledges when it answers
    200; each node of the list is sent one POST. *)
Definition acknowledges (w : World) (chunk_id : string) (data : bytes)
    (node_url : string) : bool :=
  bool_decide ((http_post w node_url chunk_id data).1 = Some 200).

Definition acked (w : World) (chunk_id : string) (data : bytes)
    (nodes : list string) : list string :=
  List.filter (acknowledges w chunk_id data) nodes.

Definition refused (w : World) (chunk_id : string) (data : bytes)
    (nodes : list string) : list string :=
  List.filter (fun n => negb (acknowledges w chunk_id data n)) nodes.

Fixpoint after_posts (w : World) (chunk_id : string) (data : bytes)
    (nodes : list string) : World :=
  match nodes with
  | [] => w
  | n :: rest => after_posts (http_post w n chunk_id data).2 chunk_id data rest
  end.

(** ** The chunks of one upload *)

Section UploadTerms.
Variables (rnd : Entropy) (file_id : string) (file_data : bytes) (file_size : Z).

(** The bytes, the row, the placement and the Replica rows of chunk [i],
    as the loop body computes them. *)
Definition chunk_payload (i : Z) : bytes :=
  slice (i * CHUNK_SIZE) (Z.min (i * CHUNK_SIZE + CHUNK_SIZE) file_size) file_data.

Definition chunk_row (s : ChunkStatus) (i : Z) : Chunk.t :=
  Chunk.mk (chunk_uuid rnd i) file_id i (Zlength (chunk_payload i))
           (calculate_checksum (chunk_payload i)) s.

Definition placement (i : Z) : list string :=
  assign_storage_nodes (sample_draws rnd i).

Definition replica_rows (i : Z) : list ChunkReplica.t :=
  map (new_replica (chunk_uuid rnd i)) (placement i).

(** The number of nodes that acknowledge the PUT of chunk [i]. *)
Definition acks (w : World) (i : Z) : Z :=
  Zlength (acked w (chunk_uuid rnd i) (chunk_payload i) (placement i)).

(** The nodes after the PUTs of the chunks [indices], in that order. *)
Definition posts_for (indices : list Z) (w : World) : World :=
  fold_left (fun w i => after_posts w (chunk_uuid rnd i) (chunk_payload i) (placement i))
            indices w.

Definition invisible (db : Db) (i : Z) : Prop :=
  chunk_uuid rnd i ∉ map Chunk.id (chunks db).

(** Every chunk of [indices] was replicated and recorded as [stored]. *)
Definition loop_completed (indices : list Z) (st st' : UploadState) : Prop :=
  u_file_status st' = u_file_status st
  /\ u_chunks st' = u_chunks st ++ map (chunk_row chunk_stored) indices
  /\ u_replicas st' = u_replicas st ++ flat_map replica_rows indices
  /\ u_world st' = posts_for indices (u_world st)
  /\ ((forall i, i ∈ indices -> invisible (u_db st) i) ->
      u_db st' = u_db st
      /\ forall i, i ∈ indices -> quorum REPLICATION_FACTOR <= acks (u_world st) i).

(** The loop stopped at chunk [k]: the chunks before it are [stored], [k]
    is [failed], the file is [failed], nothing later was touched. *)
Definition loop_failed_at (indices : list Z) (st st' : UploadState)
    (pre : list Z) (k : Z) (post : list Z) : Prop :=
  indices = pre ++ k :: post
  /\ u_file_status st' = file_failed
  /\ u_chunks st'
     = u_chunks st ++ map (chunk_row chunk_stored) pre ++ [chunk_row chunk_failed k]
  /\ u_replicas st' = u_replicas st ++ flat_map replica_rows pre
  /\ u_world st' = posts_for (pre ++ [k]) (u_world st)
  /\ ((forall i, i ∈ pre ++ [k] -> invisible (u_db st) i) ->
      u_db st' = u_db st
      /\ (forall i, i ∈ pre -> quorum REPLICATION_FACTOR <= acks (u_world st) i)
      /\ acks (u_world st) k < quorum REPLICATION_FACTOR).

End UploadTerms.

Definition uploaded_file_row (rnd : Entropy) (file_data : bytes) (filename : string)
    (content_type : option string) (current_user : string) (status : FileStatus)
    : File.t :=
  File.mk (file_uuid rnd) filename current_user (Zlength file_data)
          (content_type_or_default content_type) 1 status
          (calculate_checksum file_data)
          ((Zlength file_data + CHUNK_SIZE - 1) / CHUNK_SIZE).

(** The foreign keys of [app.py]: each Chunk belongs to a File row and
    each Replica to a Chunk row. *)
Definition fk_ok (db : Db) : Prop :=
  (forall c, c ∈ chunks db -> Chunk.file_id c ∈ map File.id (files db))
  /\ (forall r, r ∈ chunk_replicas db ->
        ChunkReplica.chunk_id r ∈ map Chunk.id (chunks db)).

Definition access_counts (db : Db) : list (string * Z) :=
  map (fun s => (FileShare.share_token s, FileShare.access_count s)) (file_shares db).

Definition chunk_statuses (db : Db) : list (string * ChunkStatus) :=
  map (fun c => (Chunk.id c, Chunk.status c)) (chunks db).

(** ** Terms of the further properties *)

(** The status code with which a request ends. *)
Definition status_code_of {A} (r : Http A) : Z :=
  match r with
  | Ok _ => 200
  | HTTPException status_code => status_code
  end.

(** What every volume that the handlers produce satisfies. *)
Definition sharded (v : StorageNode.Volume) : Prop :=
  forall p d, StorageNode.chunk_files v !! p = Some d ->
    p.1 = StorageNode.str_take 2 p.2 /\ p.1 ∈ StorageNode.dirs v
    /\ Zlength d <= MAX_CHUNK_SIZE.

(** Whether a request is a GET. *)
Definition is_get (r : Request) : bool :=
  match r with
  | GET _ _ => true
  | POST _ _ => false
  end.

(** The sum of a list of sizes. *)
Definition sum_sizes (sizes : list Z) : Z := fold_right Z.add 0 sizes.

(** The Replica keys that the chunks [indices] of an upload can be given:
    one per chunk and configured node. *)
Definition candidate_replica_ids (rnd : Entropy) (indices : list Z) : list string :=
  flat_map (fun i => map (replica_id (chunk_uuid rnd i)) STORAGE_NODES) indices.

(** The uuids drawn for an upload of [n] chunks collide neither with each
    other nor with a key of the store. *)
Definition fresh_ids (rnd : Entropy) (db : Db) (n : Z) : Prop :=
  (file_uuid rnd ∉ map File.id (files db))
  /\ NoDup (map (chunk_uuid rnd) (range n))
  /\ (forall i, i ∈ range n -> chunk_uuid rnd i ∉ map Chunk.id (chunks db))
  /\ NoDup (candidate_replica_ids rnd (range n))
  /\ (forall k, k ∈ candidate_replica_ids rnd (range n) ->
        k ∉ map ChunkReplica.id (chunk_replicas db)).

(** The kinds of cache entry. *)
Inductive CacheEntry :=
| UserFiles (user_id : string)
| FileMetadata (file_id : string)
| StorageStats
| StorageNodesHealth
| ChunkData (chunk_id : string)
| ShareInfoOf (share_token : string).

Definition redis_key (e : CacheEntry) : string :=
  match e with
  | UserFiles user_id => CacheKey.user_files user_id
  | FileMetadata file_id => CacheKey.file_metadata file_id
  | StorageStats => CacheKey.storage_stats
  | StorageNodesHealth => CacheKey.storage_nodes_health
  | ChunkData chunk_id => CacheKey.chunk_data chunk_id
  | ShareInfoOf share_token => CacheKey.share_info share_token
  end.

(** Newest first. *)
Fixpoint newest_first (updated_at : string -> Z) (l : list File.t) : Prop :=
  match l with
  | [] => True
  | f :: t =>
      (forall g, g ∈ t -> updated_at (File.id g) <= updated_at (File.id f))
      /\ newest_first updated_at t
  end.

(** The primary key and the unique columns of the [users] table. *)
Definition users_unique (users : list User.t) : Prop :=
  NoDup (map User.id users) /\ NoDup (map User.username users)
  /\ NoDup (map User.email users).

(** ** A concrete deployment, used to run the operations

    Three nodes as configured. In [ex_upload], [alice] uploads the four
    bytes [data] as [report.txt] into an empty store. [ex_db] and
    [ex_world] are a deployment that holds [report.txt] as a completed
    file: its one chunk [c1] is on the three nodes and has its three
    Replica rows. *)

Definition node1 : string := "http://localhost:8001".
Definition node2 : string := "http://localhost:8002".
Definition node3 : string := "http://localhost:8003".

Definition empty_db : Db := mkDb [] [] [] [].
Definition empty_cache : Cache := mkCache ∅ ∅ ∅ ∅.
Definition all_online : World := mkWorld {[node1; node2; node3]} ∅ [].
Definition all_offline : World := mkWorld ∅ ∅ [].

Definition ex_entropy : Entropy :=
  mkEntropy "f1" (fun i => if (i =? 0)%Z then "c1" else "c2")%string
            (fun _ => [0; 0; 0]%nat).

Definition ex_upload : Http UploadResponse * Db * Cache * World :=
  upload_file ex_entropy empty_db empty_cache all_online
              (bytes_of "data") "report.txt" (Some "text/plain"%string) "alice".

Definition ex_db : Db :=
  Eval vm_compute in
    mkDb [File.mk "f1" "report.txt" "alice" 4 "text/plain" 1 file_completed
                  (SHA256.hexdigest (bytes_of "data")) 1]
         [Chunk.mk "c1" "f1" 0 4 (SHA256.hexdigest (bytes_of "data")) chunk_stored]
         (map (new_replica "c1") [node1; node2; node3]) [].

Definition ex_world : World :=
  mkWorld {[node1; node2; node3]}
          (<[(node1, "c1"%string) := bytes_of "data"]>
             (<[(node2, "c1"%string) := bytes_of "data"]>
                (<[(node3, "c1"%string) := bytes_of "data"]> ∅)))
          [].

(** The same deployment after every node's copy of chunk [c1] was cut to
    zero bytes. *)
Definition truncated_world : World :=
  mkWorld (online ex_world)
          (<[(node1, "c1"%string) := []]>
             (<[(node2, "c1"%string) := []]>
                (<[(node3, "c1"%string) := []]> (disk ex_world))))
          (net_log ex_world).

(** The deployment after the copy of chunk [c1] on the first node was
    overwritten; the other two nodes still hold the bytes [data]. *)
Definition tampered_world : World :=
  mkWorld (online ex_world)
          (<[(node1, "c1"%string) := bytes_of "evil"]> (disk ex_world))
          [].

(** The cache as [alice]'s own download of her file leaves it. *)
Definition cache_after_owner_download : Cache :=
  (download_file ex_db empty_cache ex_world "f1" "alice").1.2.

(** [alice] shares [f1] twice: token [open] never expires, token [brief]
    expires at time 100. *)
Definition share_open : FileShare.t := FileShare.mk "s1" "f1" "alice" "open" None 0.
Definition share_brief : FileShare.t := FileShare.mk "s2" "f1" "alice" "brief" (Some 100) 0.
Definition shared_db : Db :=
  mkDb (files ex_db) (chunks ex_db) (chunk_replicas ex_db) [share_open; share_brief].

(** The first fetch through [open] at time 50, then a second one at time 60
    with the store and cache the first one left. *)
Definition open_fetch1 := download_shared_file shared_db empty_cache ex_world "open" 50.
Definition open_fetch2 :=
  download_shared_file open_fetch1.1.1.2 open_fetch1.1.2 open_fetch1.2 "open" 60.

(** A fetch through [brief] at time 50, then one at time 200, after the
    expiry, with the store and cache the first one left. *)
Definition brief_fetch1 := download_shared_file shared_db empty_cache ex_world "brief" 50.
Definition brief_fetch2 :=
  download_shared_file brief_fetch1.1.1.2 brief_fetch1.1.2 brief_fetch1.2 "brief" 200.

Definition offline_upload : Http UploadResponse * Db * Cache * World :=
  upload_file ex_entropy empty_db empty_cache all_offline
              (bytes_of "data") "report.txt" (Some "text/plain"%string) "alice".

(** The deployment of [report.txt] once all three nodes have gone offline. *)
Definition nodes_gone : World := mkWorld ∅ (disk ex_world) [].

(** A deployment that holds [alice]'s [photo.jpg]: its one chunk [c2] is
    the first four bytes of a JPEG file, which are not UTF-8. Token [pic]
    shares the file and never expires. *)
Definition jpeg : bytes := [xff; xd8; xff; xe0].

Definition share_pic : FileShare.t := FileShare.mk "s4" "f2" "alice" "pic" None 0.

Definition bin_db : Db :=
  Eval vm_compute in
    mkDb [File.mk "f2" "photo.jpg" "alice" 4 "image/jpeg" 1 file_completed
                  (SHA256.hexdigest jpeg) 1]
         [Chunk.mk "c2" "f2" 0 4 (SHA256.hexdigest jpeg) chunk_stored]
         (map (new_replica "c2") [node1; node2; node3]) [share_pic].

Definition bin_world : World :=
  mkWorld {[node1; node2; node3]}
          (<[(node1, "c2"%string) := jpeg]>
             (<[(node2, "c2"%string) := jpeg]>
                (<[(node3, "c2"%string) := jpeg]> ∅)))
          [].

(** [alice]'s own download of [photo.jpg], and the first and second fetch
    through [pic]. *)
Definition bin_owner_download := download_file bin_db empty_cache bin_world "f2" "alice".
Definition pic_fetch1 := download_shared_file bin_db empty_cache bin_world "pic" 50.
Definition pic_fetch2 :=
  download_shared_file pic_fetch1.1.1.2 pic_fetch1.1.2 pic_fetch1.2 "pic" 60.

(** A deployment that holds [alice]'s [two.bin], a file of two chunks of
    one byte each, on the first node; the row of chunk 1 was inserted
    before the row of chunk 0. *)
Definition two_chunk_db : Db :=
  Eval vm_compute in
    mkDb [File.mk "f3" "two.bin" "alice" 2 "application/octet-stream" 1 file_completed
                  (SHA256.hexdigest [xfe; xff]) 2]
         [Chunk.mk "k1" "f3" 1 1 (SHA256.hexdigest [xff]) chunk_stored;
          Chunk.mk "k0" "f3" 0 1 (SHA256.hexdigest [xfe]) chunk_stored]
         [new_replica "k1" node1; new_replica "k0" node1] [].

Definition two_chunk_world : World :=
  mkWorld {[node1]}
          (<[(node1, "k0"%string) := [xfe]]> (<[(node1, "k1"%string) := [xff]]> ∅))
          [].

(** A node volume that holds the four bytes of chunk [c1]. *)
Definition ex_volume : StorageNode.Volume :=
  (StorageNode.store_chunk StorageNode.empty_volume "c1" (bytes_of "data")).2.

(** [alice] uploads [report.txt] a second time and the same uuids are drawn. *)
Definition colliding_upload : Http UploadResponse * Db * Cache * World :=
  upload_file ex_entropy ex_db empty_cache ex_world
              (bytes_of "data") "report.txt" (Some "text/plain"%string) "alice".

(** [alice] shares [f1] for one hour at time 1000 (in microseconds). *)
Definition ex_share : Http ShareInfo * Db :=
  create_share "tok" "s3" shared_db "f1" (Some 1) "alice" 1000.

(** Two accounts. *)
Definition ex_users : list User.t :=
  [User.mk "admin" "admin" "admin@chunkvault.com" "h0" true;
   User.mk "u1" "alice" "alice@example.com" "h1" true]%string.

(** * Properties *)

(** ** SHA-256 test vectors *)

Example sha256_constants :
  length SHA256.K = 64%nat
  /\ nth 0 SHA256.K 0 = 0x428a2f98 /\ nth 63 SHA256.K 0 = 0xc67178f2
  /\ SHA256.ra SHA256.H0 = 0x6a09e667 /\ SHA256.rh SHA256.H0 = 0x5be0cd19.
Proof. vm_compute. repeat split; reflexivity. Qed.

Example sha256_empty :
  SHA256.hexdigest [] = "e3b0c44298fc1c149afbf4c8996fb92427ae41e4649b934ca495991b7852b855".
Proof. vm_compute. reflexivity. Qed.

Example sha256_abc :
  SHA256.hexdigest (bytes_of "abc")
  = "ba7816bf8f01cfea414140de5dae2223b00361a396177a9cb410ff61f20015ad".
Proof. vm_compute. reflexivity. Qed.

Example sha256_two_blocks :
  SHA256.hexdigest
    (bytes_of "abcdbcdecdefdefgefghfghighijhijkijkljklmklmnlmnomnopnopq")
  = "248d6a61d20638b8e5c026930c3e6039a33ce45964ff2167f6ecedd419db06c1".
Proof. vm_compute. reflexivity. Qed.

(** ** [len] *)

Lemma Zlength_nonneg {A} (l : list A) : 0 <= Zlength l.
Proof. rewrite Zlength_correct. lia. Qed.

Lemma Zlength_app {A} (l1 l2 : list A) : Zlength (l1 ++ l2) = Zlength l1 + Zlength l2.
Proof. rewrite !Zlength_correct, length_app. lia. Qed.

(** ** What a sequence of GETs observes *)

Lemma with_log_nil w : with_log w [] = w.
Proof. destruct w; unfold with_log; simpl. by rewrite app_nil_r. Qed.

Lemma with_log_app w l1 l2 : with_log (with_log w l1) l2 = with_log w (l1 ++ l2).
Proof. unfold with_log; simpl. by rewrite app_assoc. Qed.

Lemma answer_online_disk w n c :
  answer w n c = if decide (n ∈ online w) then disk w !! (n, c) else None.
Proof.
  unfold answer, http_get. destruct (decide (n ∈ online w)); [|done].
  destruct (disk w !! (n, c)); simpl; done.
Qed.

Lemma answer_with_log w l n c : answer (with_log w l) n c = answer w n c.
Proof. by rewrite !answer_online_disk. Qed.

Lemma first_answer_with_log w l c nodes :
  first_answer (with_log w l) c nodes = first_answer w c nodes.
Proof.
  induction nodes as [|n rest IH]; simpl; [done|].
  rewrite answer_with_log, IH. done.
Qed.

Lemma tried_with_log w l c nodes : tried (with_log w l) c nodes = tried w c nodes.
Proof.
  induction nodes as [|n rest IH]; simpl; [done|].
  rewrite answer_with_log, IH. done.
Qed.

Lemma http_get_answer w n c :
  http_get w n c =
  (fst (http_get w n c), with_log w [GET n c]).
Proof. unfold http_get, with_log. repeat case_match; done. Qed.

Lemma get_from_nodes_eq nodes : forall w c,
  get_from_nodes w c nodes
  = (first_answer w c nodes, with_log w (map (fun n => GET n c) (tried w c nodes))).
Proof.
  induction nodes as [|n rest IH]; intros w c; simpl.
  - by rewrite with_log_nil.
  - rewrite http_get_answer. unfold answer.
    destruct (fst (http_get w n c)) as [[code content]|] eqn:E.
    + destruct (decide (code = 200)); [done|].
      rewrite IH, first_answer_with_log, tried_with_log, with_log_app. done.
    + rewrite IH, first_answer_with_log, tried_with_log, with_log_app. done.
Qed.

Lemma first_answer_None w c nodes :
  first_answer w c nodes = None <-> forall n, n ∈ nodes -> answer w n c = None.
Proof.
  induction nodes as [|n rest IH]; simpl.
  - split; [intros _ n H; by apply elem_of_nil in H | done].
  - destruct (answer w n c) eqn:E.
    + split; [done|]. intros H. specialize (H n (list_elem_of_here _ _)). congruence.
    + rewrite IH. split.
      * intros H m Hm. apply elem_of_cons in Hm as [->|Hm]; auto.
      * intros H m Hm. apply H. by apply list_elem_of_further.
Qed.

Lemma first_answer_Some w c nodes d :
  first_answer w c nodes = Some d <->
  exists pre n post, nodes = pre ++ n :: post
    /\ (forall m, m ∈ pre -> answer w m c = None)
    /\ answer w n c = Some d.
Proof.
  induction nodes as [|n rest IH]; simpl.
  - split; [done|]. intros (pre & m & post & H & _). by destruct pre.
  - destruct (answer w n c) eqn:E.
    + split.
      * intros [= ->]. exists [], n, rest. split; [done|]. split; [|done].
        intros m Hm. by apply elem_of_nil in Hm.
      * intros (pre & m & post & H & Hpre & Hm). destruct pre as [|p pre]; simpl in H.
        -- injection H as -> ->. congruence.
        -- injection H as -> ->. specialize (Hpre p (list_elem_of_here _ _)). congruence.
    + rewrite IH. split.
      * intros (pre & m & post & -> & Hpre & Hm). exists (n :: pre), m, post.
        split; [done|]. split; [|done].
        intros x Hx. apply elem_of_cons in Hx as [->|Hx]; auto.
      * intros (pre & m & post & H & Hpre & Hm). destruct pre as [|p pre]; simpl in H.
        -- injection H as -> ->. congruence.
        -- injection H as -> ->. exists pre, m, post. split; [done|]. split; [|done].
           intros x Hx. apply Hpre. by apply list_elem_of_further.
Qed.

Lemma tried_None w c nodes :
  first_answer w c nodes = None -> tried w c nodes = nodes.
Proof.
  induction nodes as [|n rest IH]; simpl; [done|].
  destruct (answer w n c); [done|]. intros H. by rewrite IH.
Qed.

Lemma tried_Some w c pre n post d :
  (forall m, m ∈ pre -> answer w m c = None) -> answer w n c = Some d ->
  tried w c (pre ++ n :: post) = pre ++ [n].
Proof.
  intros Hpre Hn. induction pre as [|p pre IH]; simpl.
  - by rewrite Hn.
  - rewrite (Hpre p (list_elem_of_here _ _)), IH; [done|].
    intros m Hm. apply Hpre. by apply list_elem_of_further.
Qed.

(** ** VerifyFile *)

Lemma verify_entry_with_log db w l chunk :
  verify_entry db (with_log w l) chunk = verify_entry db w chunk.
Proof. unfold verify_entry. by rewrite first_answer_with_log. Qed.

Lemma verify_requests_with_log db w l chunk :
  verify_requests db (with_log w l) chunk = verify_requests db w chunk.
Proof. unfold verify_requests. by rewrite tried_with_log. Qed.

Lemma verify_chunks_eq db cs : forall w acc,
  verify_chunks db w cs acc
  = (acc ++ flat_map (verify_entry db w) cs,
     with_log w (flat_map (verify_requests db w) cs)).
Proof.
  induction cs as [|chunk rest IH]; intros w acc; simpl.
  - by rewrite app_nil_r, with_log_nil.
  - rewrite get_from_nodes_eq.
    assert (E : forall acc',
      verify_chunks db
        (with_log w (map (fun n => GET n (Chunk.id chunk))
           (tried w (Chunk.id chunk) (replica_nodes db (Chunk.id chunk))))) rest acc'
      = (acc' ++ flat_map (verify_entry db w) rest,
         with_log w (verify_requests db w chunk ++ flat_map (verify_requests db w) rest))).
    { intros acc'. rewrite IH, with_log_app. f_equal.
      - f_equal. apply flat_map_ext. intros c. apply verify_entry_with_log.
      - unfold verify_requests at 3. do 2 f_equal.
        apply flat_map_ext. intros c. apply verify_requests_with_log. }
    unfold verify_entry at 1.
    destruct (truthy _); [destruct (decide _)|]; rewrite E;
      by rewrite <- ?app_assoc.
Qed.

Lemma first_Some_elem {A} (p : A -> bool) (rows : list A) (x : A) :
  first p rows = Some x -> x ∈ rows /\ p x = true.
Proof.
  unfold first. intros H. apply find_some in H as [H1 H2].
  by rewrite list_elem_of_In.
Qed.

Lemma update_file_status_files db key s f :
  f ∈ files (update_file_status key s db) -> File.id f = key -> File.status f = s.
Proof.
  unfold update_file_status; simpl. intros Hf Hid.
  apply list_elem_of_fmap in Hf as (g & -> & Hg).
  destruct (decide (File.id g = key)); [done|]. contradiction.
Qed.

Lemma update_file_status_keeps db key s f :
  f ∈ files db -> File.id f = key ->
  exists g, g ∈ files (update_file_status key s db) /\ File.id g = key.
Proof.
  intros Hf Hid. exists (File.set_status s f). split; [|done].
  unfold update_file_status; simpl. apply list_elem_of_fmap.
  exists f. split; [|done]. by rewrite decide_True.
Qed.

Lemma verify_file_integrity_eq db w file_id file_record :
  first (fun f => bool_decide (File.id f = file_id)) (files db) = Some file_record ->
  verify_file_integrity db w file_id =
  let corrupted_chunks := flat_map (verify_entry db w) (chunks_of_file db file_id) in
  let status := match corrupted_chunks with [] => file_verified | _ => file_corrupted end in
  (verify_done file_id status corrupted_chunks,
   update_file_status file_id status db,
   with_log w (flat_map (verify_requests db w) (chunks_of_file db file_id))).
Proof.
  intros H. unfold verify_file_integrity. rewrite H, verify_chunks_eq. done.
Qed.

(** X28. Where the claim on verification holds: when for every chunk of
    the file the first replica that answers 200 returns a payload that is
    not empty and has the stored digest, VerifyFile returns [verified] with
    no corrupted chunk and marks the File row [verified]. *)
Lemma verify_all_match_verified db w file_id file_record :
  first (fun f => bool_decide (File.id f = file_id)) (files db) = Some file_record ->
  (forall chunk, chunk ∈ chunks_of_file db file_id ->
     exists d, d <> []
       /\ first_answer w (Chunk.id chunk) (replica_nodes db (Chunk.id chunk)) = Some d
       /\ SHA256.hexdigest d = Chunk.checksum chunk) ->
  exists w',
    verify_file_integrity db w file_id
    = (verify_done file_id file_verified [],
       update_file_status file_id file_verified db, w').
Proof.
  intros Hf Hall. rewrite (verify_file_integrity_eq _ _ _ _ Hf).
  assert (E : flat_map (verify_entry db w) (chunks_of_file db file_id) = []).
  { induction (chunks_of_file db file_id) as [|c cs IH]; simpl; [done|].
    rewrite IH; [|intros; apply Hall; by apply list_elem_of_further].
    destruct (Hall c (list_elem_of_here _ _)) as (d & Hne & Hd & Hsum).
    unfold verify_entry. rewrite Hd. destruct d; [done|]. simpl.
    rewrite decide_False; [done|]. intros Hx. by apply Hx. }
  simpl. rewrite E. eauto.
Qed.

(** X29. A payload that is not empty and mismatches is reported with the
    stored digest as expected and the computed one, and the file becomes
    [corrupted]. *)
Lemma verify_mismatch_reported db w file_id file_record chunk d :
  first (fun f => bool_decide (File.id f = file_id)) (files db) = Some file_record ->
  chunk ∈ chunks_of_file db file_id ->
  first_answer w (Chunk.id chunk) (replica_nodes db (Chunk.id chunk)) = Some d ->
  d <> [] ->
  SHA256.hexdigest d <> Chunk.checksum chunk ->
  exists corrupted_chunks w',
    verify_file_integrity db w file_id
    = (verify_done file_id file_corrupted corrupted_chunks,
       update_file_status file_id file_corrupted db, w')
    /\ checksum_mismatch (Chunk.id chunk) (Chunk.checksum chunk) (SHA256.hexdigest d)
       ∈ corrupted_chunks.
Proof.
  intros Hf Hc Hd Hne Hsum. rewrite (verify_file_integrity_eq _ _ _ _ Hf).
  assert (E : checksum_mismatch (Chunk.id chunk) (Chunk.checksum chunk)
                (SHA256.hexdigest d)
              ∈ flat_map (verify_entry db w) (chunks_of_file db file_id)).
  { apply list_elem_of_In, in_flat_map. exists chunk.
    split; [by apply list_elem_of_In|].
    unfold verify_entry. rewrite Hd. destruct d; [done|]. simpl.
    rewrite decide_True; [|done]. by left. }
  simpl. destruct (flat_map _ _) eqn:E'; [by apply elem_of_nil in E|].
  eauto.
Qed.

(** C10. If no replica of some chunk of the file answers with a payload
    (every listed node fails or reports not-found), VerifyFile returns
    [corrupted], marks the File row [corrupted], and lists that chunk with
    the error [chunk_not_found]: unreachability is folded into the same
    outcome as a digest mismatch. *)
Theorem verify_unreachable_chunk_is_corrupted db w file_id file_record chunk :
  first (fun f => bool_decide (File.id f = file_id)) (files db) = Some file_record ->
  chunk ∈ chunks_of_file db file_id ->
  (forall n, n ∈ replica_nodes db (Chunk.id chunk) ->
     answer w n (Chunk.id chunk) = None) ->
  exists corrupted_chunks db' w',
    verify_file_integrity db w file_id
    = (verify_done file_id file_corrupted corrupted_chunks, db', w')
    /\ chunk_not_found (Chunk.id chunk) ∈ corrupted_chunks
    /\ (exists f, f ∈ files db' /\ File.id f = file_id)
    /\ (forall f, f ∈ files db' -> File.id f = file_id ->
          File.status f = file_corrupted).
Proof.
  intros Hf Hc Hnone. rewrite (verify_file_integrity_eq _ _ _ _ Hf).
  apply first_answer_None in Hnone.
  assert (E : chunk_not_found (Chunk.id chunk)
              ∈ flat_map (verify_entry db w) (chunks_of_file db file_id)).
  { apply list_elem_of_In, in_flat_map. exists chunk.
    split; [by apply list_elem_of_In|].
    unfold verify_entry. rewrite Hnone. simpl. by left. }
  simpl. destruct (flat_map _ _) as [|e l] eqn:E'; [by apply elem_of_nil in E|].
  eexists (e :: l), (update_file_status file_id file_corrupted db), _.
  split; [reflexivity|]. split; [done|].
  apply first_Some_elem in Hf as [Hf1 Hf2]. apply bool_decide_eq_true in Hf2.
  split.
  - by apply (update_file_status_keeps _ _ _ file_record).
  - apply update_file_status_files.
Qed.

Example ex_db_rows :
  files ex_db =
       [File.mk "f1" "report.txt" "alice" 4 "text/plain" 1 file_completed
          "3a6eb0790f39ac87c94f3856b2dd2c5d110e6811602261a9a923d3bb23adc8b7" 1]
  /\ chunks ex_db =
       [Chunk.mk "c1" "f1" 0 4
          "3a6eb0790f39ac87c94f3856b2dd2c5d110e6811602261a9a923d3bb23adc8b7"
          chunk_stored]
  /\ chunk_replicas ex_db =
       [new_replica "c1" node1; new_replica "c1" node2; new_replica "c1" node3].
Proof. vm_compute. repeat split; reflexivity. Qed.

(** C7 (evaluation at the failing input). Every replica of chunk [c1]
    answers 200 with an empty body, whose SHA-256 differs from the stored
    digest; VerifyFile marks the file [corrupted] but lists the chunk as
    [chunk_not_found], without the stored digest as [expected_checksum]. *)
Theorem verify_empty_payload_reported_not_found :
  (forall n, n ∈ replica_nodes ex_db "c1" -> answer truncated_world n "c1" = Some [])
  /\ (forall c, c ∈ chunks ex_db -> calculate_checksum [] <> Chunk.checksum c)
  /\ (verify_file_integrity ex_db truncated_world "f1").1.1
     = verify_done "f1" file_corrupted [chunk_not_found "c1"].
Proof.
  split; [|split].
  - intros n Hn. vm_compute in Hn.
    repeat (apply elem_of_cons in Hn as [->|Hn]); try (vm_compute; reflexivity).
    by apply elem_of_nil in Hn.
  - intros c Hc. vm_compute in Hc.
    repeat (apply elem_of_cons in Hc as [->|Hc]); [|by apply elem_of_nil in Hc].
    vm_compute. discriminate.
  - vm_compute. reflexivity.
Qed.

(** C10 at the deployment of [report.txt] with every node offline. *)
Lemma verify_unreachable_chunk_witness :
  exists corrupted_chunks db' w',
    verify_file_integrity ex_db all_offline "f1"
    = (verify_done "f1" file_corrupted corrupted_chunks, db', w')
    /\ chunk_not_found "c1" ∈ corrupted_chunks
    /\ (exists f, f ∈ files db' /\ File.id f = "f1"%string)
    /\ (forall f, f ∈ files db' -> File.id f = "f1"%string ->
          File.status f = file_corrupted).
Proof.
  apply (verify_unreachable_chunk_is_corrupted ex_db all_offline "f1"
           (File.mk "f1" "report.txt" "alice" 4 "text/plain" 1 file_completed
              "3a6eb0790f39ac87c94f3856b2dd2c5d110e6811602261a9a923d3bb23adc8b7" 1)
           (Chunk.mk "c1" "f1" 0 4
              "3a6eb0790f39ac87c94f3856b2dd2c5d110e6811602261a9a923d3bb23adc8b7"
              chunk_stored)).
  - reflexivity.
  - apply list_elem_of_In. simpl. left. reflexivity.
  - intros n Hn. reflexivity.
Defined.

(** ** Reading a chunk during download *)

Lemma retrieve_chunk_from_nodes_eq cache w chunk_id storage_nodes :
  retrieve_chunk_from_nodes cache w chunk_id storage_nodes =
  if truthy (get_chunk_data cache chunk_id)
  then (option_map as_str (get_chunk_data cache chunk_id), cache, w)
  else
    let w' := with_log w (map (fun n => GET n chunk_id)
                              (tried w chunk_id storage_nodes)) in
    match first_answer w chunk_id storage_nodes with
    | Some d => (Some (as_bytes d), set_chunk_data cache chunk_id d, w')
    | None => (None, cache, w')
    end.
Proof.
  unfold retrieve_chunk_from_nodes. rewrite get_from_nodes_eq.
  destruct (truthy _); [done|]. by destruct (first_answer _ _ _).
Qed.

Lemma get_chunk_data_Some cache chunk_id text :
  get_chunk_data cache chunk_id = Some text <->
  chunk_data cache !! chunk_id = Some text /\ utf8_valid text = true.
Proof.
  unfold get_chunk_data. destruct (chunk_data cache !! chunk_id) as [d|].
  - destruct (utf8_valid d) eqn:E; split.
    + by intros [= <-].
    + by intros [[= <-] _].
    + done.
    + intros [[= <-] Hv]. congruence.
  - split; [done|]. by intros [? _].
Qed.

Lemma get_chunk_data_set_ne cache k d k' :
  k <> k' -> get_chunk_data (set_chunk_data cache k d) k' = get_chunk_data cache k'.
Proof. intros H. unfold get_chunk_data, set_chunk_data; cbn. by rewrite lookup_insert_ne. Qed.

Lemma get_chunk_data_set cache k d :
  get_chunk_data (set_chunk_data cache k d) k = if utf8_valid d then Some d else None.
Proof. unfold get_chunk_data, set_chunk_data; cbn. by rewrite lookup_insert_eq. Qed.

Lemma bytes_join_app l1 l2 :
  bytes_join (l1 ++ l2) =
  match bytes_join l1, bytes_join l2 with
  | Some a, Some b => Some (a ++ b)
  | _, _ => None
  end.
Proof.
  induction l1 as [|[content|text] l1 IH]; cbn [app bytes_join].
  - by destruct (bytes_join l2).
  - rewrite IH. destruct (bytes_join l1), (bytes_join l2); try done.
    by rewrite app_assoc.
  - done.
Qed.

Lemma bytes_join_snoc_None acc x : bytes_join acc = None -> bytes_join (acc ++ [x]) = None.
Proof. intros H. by rewrite bytes_join_app, H. Qed.

(** Once a chunk of the list comes back from the cache as text, the join
    of the collected list fails. *)
Lemma retrieve_chunks_cached_str db cs : forall cache w acc,
  (exists c, c ∈ cs /\ truthy (get_chunk_data cache (Chunk.id c)) = true)
  \/ bytes_join acc = None ->
  match (retrieve_chunks db cache w cs acc).1.1 with
  | Some chunk_data_list => bytes_join chunk_data_list = None
  | None => True
  end.
Proof.
  induction cs as [|c cs IH]; intros cache w acc H; cbn [retrieve_chunks].
  - destruct H as [(c & Hc & _)|H]; [by apply elem_of_nil in Hc|done].
  - rewrite retrieve_chunk_from_nodes_eq.
    destruct (truthy (get_chunk_data cache (Chunk.id c))) eqn:Ht.
    + destruct (get_chunk_data cache (Chunk.id c)) as [d|]; [|done].
      cbn [option_map]. apply IH. right.
      rewrite bytes_join_app. cbn. by destruct (bytes_join acc).
    + cbn zeta.
      destruct (first_answer w (Chunk.id c) (replica_nodes db (Chunk.id c))) as [d|];
        [|done].
      apply IH. destruct H as [(c' & Hc' & Ht')|H].
      * left. exists c'. apply elem_of_cons in Hc' as [->|Hc']; [congruence|].
        split; [done|]. rewrite get_chunk_data_set_ne; [done|].
        intros E. rewrite E in Ht. congruence.
      * right. by apply bytes_join_snoc_None.
Qed.

Lemma order_by_chunk_index_elem c l : c ∈ l -> c ∈ order_by_chunk_index l.
Proof.
  assert (Hins : forall x (t : list Chunk.t) y,
            y ∈ insert_by_index x t <-> y = x \/ y ∈ t).
  { intros x t. induction t as [|z t IHt]; intros y; cbn [insert_by_index].
    - rewrite elem_of_cons, elem_of_nil. tauto.
    - destruct (_ <=? _); [by rewrite elem_of_cons|].
      rewrite !elem_of_cons, IHt. tauto. }
  induction l as [|x l IH]; intros H; [done|].
  unfold order_by_chunk_index; cbn [foldr]. apply Hins.
  apply elem_of_cons in H as [->|H]; [by left|right; by apply IH].
Qed.

Example utf8_valid_examples :
  utf8_valid (bytes_of "data") = true
  /\ utf8_valid [] = true
  /\ utf8_valid [xc3; xa9] = true
  /\ utf8_valid [xe2; x82; xac] = true
  /\ utf8_valid [xf0; x9f; x98; x80] = true
  /\ utf8_valid jpeg = false
  /\ utf8_valid [xc3] = false
  /\ utf8_valid [xc0; x80] = false
  /\ utf8_valid [xed; xa0; x80] = false
  /\ utf8_valid [xf4; x90; x80; x80] = false
  /\ utf8_valid [x80] = false.
Proof. repeat split; reflexivity. Qed.

(** The chunks of a download are read and joined in the order of their
    index, not in the order of their rows. *)
Example download_orders_chunks_by_index :
  map Chunk.chunk_index (chunks_of_file two_chunk_db "f3") = [1; 0]
  /\ download_file two_chunk_db empty_cache two_chunk_world "f3" "alice"
     = (Ok [xfe; xff],
        set_chunk_data
          (set_chunk_data
             (set_file_metadata empty_cache "f3"
                (File.mk "f3" "two.bin" "alice" 2 "application/octet-stream" 1
                         file_completed (SHA256.hexdigest [xfe; xff]) 2))
             "k0" [xfe])
          "k1" [xff],
        with_log two_chunk_world [GET node1 "k0"; GET node1 "k1"]).
Proof. split; vm_compute; reflexivity. Qed.



(** ** Authorization of a download *)

(** X18. On a metadata cache miss the owner filter of the query decides:
    a requester who owns no File row of that id is answered 404, nothing
    is cached and no node is contacted. *)
Lemma download_cache_miss_requires_owner db cache w file_id current_user :
  get_file_metadata cache file_id = None ->
  (forall f, f ∈ files db -> File.id f = file_id -> File.owner_id f <> current_user) ->
  download_file db cache w file_id current_user = (HTTPException 404, cache, w).
Proof.
  intros Hmiss Hown. unfold download_file. rewrite Hmiss.
  destruct (first _ (files db)) as [f|] eqn:E; [|done].
  apply first_Some_elem in E as [Hf Hp].
  apply andb_true_iff in Hp as [H1 H2].
  apply bool_decide_eq_true in H1, H2. by destruct (Hown f Hf H1).
Qed.

(** X19. On a metadata cache hit the requester plays no part in the
    outcome of a download. *)
Lemma download_cache_hit_ignores_requester db cache w file_id user1 user2 :
  is_Some (get_file_metadata cache file_id) ->
  download_file db cache w file_id user1 = download_file db cache w file_id user2.
Proof. intros [m Hm]. unfold download_file. by rewrite Hm. Qed.

(** C1 (evaluation at the failing input). [bob] does not own [photo.jpg],
    whose bytes are not UTF-8: with no cached metadata his download is
    refused with 404, but once the owner's download has cached the file
    metadata the same request returns the file's bytes. For [report.txt],
    whose bytes the chunk cache returns as text, the same request is not
    refused at the lookup either: it ends in 500. *)
Theorem download_cached_metadata_skips_owner_check :
  (forall f, f ∈ files bin_db -> File.owner_id f = "alice"%string)
  /\ utf8_valid jpeg = false
  /\ (download_file bin_db empty_cache bin_world "f2" "bob").1.1 = HTTPException 404
  /\ bin_owner_download.1.1 = Ok jpeg
  /\ is_Some (get_file_metadata bin_owner_download.1.2 "f2")
  /\ (download_file bin_db bin_owner_download.1.2 bin_owner_download.2 "f2" "bob").1.1
     = Ok jpeg
  /\ (download_file ex_db empty_cache ex_world "f1" "bob").1.1 = HTTPException 404
  /\ (download_file ex_db cache_after_owner_download ex_world "f1" "bob").1.1
     = HTTPException 500.
Proof.
  split.
  - intros f Hf. vm_compute in Hf.
    repeat (apply elem_of_cons in Hf as [->|Hf]); [|by apply elem_of_nil in Hf].
    reflexivity.
  - split; [vm_compute; reflexivity|]. split; [vm_compute; reflexivity|].
    split; [vm_compute; reflexivity|].
    split; [eexists; vm_compute; reflexivity|].
    split; [vm_compute; reflexivity|]. split; vm_compute; reflexivity.
Qed.

(** ** Shared downloads *)

(** With no cached share info, a share whose [expires_at] is past is
    refused with 410 and no row changes. *)
Lemma shared_expired_cache_miss db cache w share_token now row t :
  get_share_info cache share_token = None ->
  first (fun s => bool_decide (FileShare.share_token s = share_token))
        (file_shares db) = Some row ->
  FileShare.expires_at row = Some t ->
  t < now ->
  download_shared_file db cache w share_token now
  = (HTTPException 410, db, set_share_info cache share_token row, w).
Proof.
  intros Hmiss Hrow Hexp Hlt. unfold download_shared_file.
  rewrite Hmiss, Hrow. simpl. rewrite Hexp. simpl.
  destruct (t <? now) eqn:E; [done|]. apply Z.ltb_ge in E. lia.
Qed.

(** X23. With no cached share info, a shared fetch that returns the bytes
    has written the access counter of the share row, incremented by one. *)
Lemma shared_success_cache_miss db cache w share_token now row payload db' cache' w' :
  get_share_info cache share_token = None ->
  first (fun s => bool_decide (FileShare.share_token s = share_token))
        (file_shares db) = Some row ->
  download_shared_file db cache w share_token now = (Ok payload, db', cache', w') ->
  db' = update_share_access_count (FileShare.id row)
                                  (FileShare.access_count row + 1) db.
Proof.
  intros Hmiss Hrow. unfold download_shared_file.
  rewrite Hmiss, Hrow. simpl.
  destruct (expired _ now) as [[|]|]; [done| |done].
  destruct (first _ (files _)); [|done].
  destruct (retrieve_chunks _ _ _ _ _) as [[[l|] c2] w2]; [|done].
  destruct (bytes_join l); [|done].
  by intros [= _ <- _ _].
Qed.

(** X24. With cached share info, no shared fetch changes any row. *)
Lemma shared_cache_hit_db_unchanged db cache w share_token now :
  is_Some (get_share_info cache share_token) ->
  (download_shared_file db cache w share_token now).1.1.2 = db.
Proof.
  intros [d Hd]. unfold download_shared_file. rewrite Hd. simpl.
  destruct (expired _ now) as [[|]|]; [done| |done]. simpl.
  destruct (first _ (files _)); [|done].
  destruct (retrieve_chunks _ _ _ _ _) as [[[l|] c2] w2]; [|done].
  by destruct (bytes_join l).
Qed.

(** C8 (evaluation at the failing input). The bytes of [photo.jpg] are
    not UTF-8. The second fetch through token [pic] is served from the
    cached share info: it returns the bytes and the access counter stays
    at 1. Through token [open] of [report.txt], whose bytes the chunk
    cache returns as text, the second fetch ends in 500, the counter
    staying at 1 as well. Through token [brief], the fetch after the
    expiry is refused with 410 when the share info is not cached, but
    ends in 500 when it is; in neither case does the counter move. *)
Theorem shared_fetch_from_cache_skips_counter :
  utf8_valid jpeg = false
  /\ pic_fetch1.1.1.1 = Ok jpeg
  /\ access_counts pic_fetch1.1.1.2 = [("pic", 1)]%string
  /\ pic_fetch2.1.1.1 = Ok jpeg
  /\ access_counts pic_fetch2.1.1.2 = [("pic", 1)]%string
  /\ open_fetch1.1.1.1 = Ok (bytes_of "data")
  /\ access_counts open_fetch1.1.1.2 = [("open", 1); ("brief", 0)]%string
  /\ open_fetch2.1.1.1 = HTTPException 500
  /\ access_counts open_fetch2.1.1.2 = [("open", 1); ("brief", 0)]%string
  /\ (download_shared_file shared_db empty_cache ex_world "brief" 200).1.1.1
     = HTTPException 410
  /\ brief_fetch1.1.1.1 = Ok (bytes_of "data")
  /\ brief_fetch2.1.1.1 = HTTPException 500
  /\ access_counts brief_fetch2.1.1.2 = [("open", 0); ("brief", 1)]%string.
Proof. vm_compute. repeat split; reflexivity. Qed.

(** ** Placement *)

Lemma sample_spec k : forall pool draws,
  NoDup pool -> (k <= length pool)%nat ->
  length (sample pool k draws) = k
  /\ NoDup (sample pool k draws)
  /\ (forall n, n ∈ sample pool k draws -> n ∈ pool).
Proof.
  induction k as [|k IH]; intros pool draws Hnd Hk; simpl.
  - split; [done|]. split; [constructor|]. intros n Hn. by apply elem_of_nil in Hn.
  - assert (Hj : (hd 0 draws mod length pool < length pool)%nat)
      by (apply Nat.mod_upper_bound; lia).
    destruct (lookup_lt_is_Some_2 pool _ Hj) as [x Hx]. rewrite Hx.
    pose proof (delete_Permutation _ _ _ Hx) as Hperm.
    assert (Hnd' : NoDup (x :: delete (hd 0 draws mod length pool)%nat pool))
      by (by rewrite <- Hperm).
    apply NoDup_cons in Hnd' as [Hx' Hnd'].
    destruct (IH (delete (hd 0 draws mod length pool)%nat pool) (tl draws) Hnd')
      as (Hlen & Hnd'' & Hsub).
    { rewrite length_delete; [lia|]. eauto. }
    split; [simpl; by rewrite Hlen|]. split.
    + apply NoDup_cons. split; [|done]. intros Hin. apply Hx'. by apply Hsub.
    + intros n Hn. apply elem_of_cons in Hn as [->|Hn].
      * by eapply list_elem_of_lookup_2.
      * eapply list_elem_of_delete_inv. by apply Hsub.
Qed.

(** No node of the repository acknowledges a POST of the task. *)
Lemma acknowledges_never w c data n : acknowledges w c data n = false.
Proof.
  unfold acknowledges, http_post.
  destruct (decide (n ∈ online w)); cbn [fst]; by rewrite bool_decide_eq_false_2.
Qed.

Lemma acked_nil w c data nodes : acked w c data nodes = [].
Proof.
  unfold acked. induction nodes as [|n rest IH]; [done|].
  cbn [List.filter]. by rewrite acknowledges_never.
Qed.

Lemma refused_all w c data nodes : refused w c data nodes = nodes.
Proof.
  unfold refused. induction nodes as [|n rest IH]; [done|].
  cbn [List.filter]. rewrite acknowledges_never. cbn [negb]. by rewrite IH.
Qed.

Lemma http_post_online w n c data : online (http_post w n c data).2 = online w.
Proof. unfold http_post. repeat case_match; done. Qed.

Lemma http_post_log w n c data :
  net_log (http_post w n c data).2 = net_log w ++ [POST n c].
Proof. unfold http_post. repeat case_match; done. Qed.

Lemma http_post_disk w n c data : disk (http_post w n c data).2 = disk w.
Proof. unfold http_post. repeat case_match; done. Qed.

Lemma acknowledges_after_post w n c data m c' data' :
  acknowledges (http_post w n c data).2 c' data' m = acknowledges w c' data' m.
Proof. by rewrite !acknowledges_never. Qed.

Lemma acked_after_post w n c data nodes :
  acked (http_post w n c data).2 c data nodes = acked w c data nodes.
Proof.
  unfold acked. apply filter_ext. intros m. apply acknowledges_after_post.
Qed.

Lemma refused_after_post w n c data nodes :
  refused (http_post w n c data).2 c data nodes = refused w c data nodes.
Proof.
  unfold refused. apply filter_ext. intros m. by rewrite acknowledges_after_post.
Qed.

Lemma post_to_nodes_eq c data nodes : forall w success_count failed_nodes,
  post_to_nodes w c data nodes success_count failed_nodes
  = (success_count + Zlength (acked w c data nodes),
     failed_nodes ++ refused w c data nodes,
     after_posts w c data nodes).
Proof.
  induction nodes as [|n rest IH]; intros w sc fn; simpl.
  - by rewrite Z.add_0_r, app_nil_r.
  - pose proof (acked_after_post w n c data rest) as Ha.
    pose proof (refused_after_post w n c data rest) as Hr.
    unfold acked, refused in *. simpl.
    assert (Hack : acknowledges w c data n
                   = bool_decide ((http_post w n c data).1 = Some 200)) by done.
    destruct (http_post w n c data) as [[code|] w1] eqn:E;
      cbn [fst snd] in Hack, Ha, Hr |- *.
    + destruct (decide (code = 200)) as [->|Hne].
      * rewrite bool_decide_eq_true_2 in Hack by done. rewrite Hack. simpl.
        rewrite IH, Ha, Hr, Zlength_cons. f_equal. f_equal. lia.
      * rewrite bool_decide_eq_false_2 in Hack by congruence. rewrite Hack. simpl.
        rewrite IH, Ha, Hr, <- app_assoc. done.
    + rewrite bool_decide_eq_false_2 in Hack by done. rewrite Hack. simpl.
      rewrite IH, Ha, Hr, <- app_assoc. done.
Qed.

Lemma after_posts_online c data nodes : forall w,
  online (after_posts w c data nodes) = online w.
Proof.
  induction nodes as [|n rest IH]; intros w; simpl; [done|].
  by rewrite IH, http_post_online.
Qed.

Lemma after_posts_log c data nodes : forall w,
  net_log (after_posts w c data nodes)
  = net_log w ++ map (fun n => POST n c) nodes.
Proof.
  induction nodes as [|n rest IH]; intros w; simpl.
  - by rewrite app_nil_r.
  - by rewrite IH, http_post_log, <- app_assoc.
Qed.

Lemma after_posts_disk c data nodes : forall w,
  disk (after_posts w c data nodes) = disk w.
Proof.
  induction nodes as [|n rest IH]; intros w; simpl; [done|].
  by rewrite IH, http_post_disk.
Qed.

(** The PUT loop only extends the log. *)
Lemma after_posts_eq c data nodes w :
  after_posts w c data nodes = with_log w (map (fun n => POST n c) nodes).
Proof.
  pose proof (after_posts_online c data nodes w) as H1.
  pose proof (after_posts_log c data nodes w) as H2.
  pose proof (after_posts_disk c data nodes w) as H3.
  unfold with_log. destruct (after_posts w c data nodes); simpl in *. by subst.
Qed.

Lemma filter_not_refused w c data nodes :
  List.filter (fun n => negb (bool_decide (n ∈ refused w c data nodes))) nodes
  = acked w c data nodes.
Proof.
  unfold acked. apply filter_ext_in. intros n Hn.
  destruct (acknowledges w c data n) eqn:E.
  - rewrite bool_decide_eq_false_2; [done|]. unfold refused.
    rewrite list_elem_of_In, filter_In, E. by intros [_ ?].
  - rewrite bool_decide_eq_true_2; [done|]. unfold refused.
    rewrite list_elem_of_In, filter_In, E. done.
Qed.

(** [replicate_chunk] in closed form. *)
Lemma replicate_chunk_eq db w c data nodes R :
  replicate_chunk db w c data nodes R =
  let success_count := Zlength (acked w c data nodes) in
  let result :=
    mkReplicateResult c success_count (refused w c data nodes)
      (if success_count >=? quorum R then chunk_stored else chunk_failed) in
  let w' := after_posts w c data nodes in
  match first (fun x => bool_decide (Chunk.id x = c)) (chunks db) with
  | Some _ =>
      if success_count >=? quorum R then
        match commit_inserts (update_chunk_status c chunk_stored db) [] []
                (map (new_replica c) (acked w c data nodes)) with
        | Some db' => (Returned result, db', w')
        | None => (Raised, db, w')
        end
      else (Returned result, update_chunk_status c chunk_failed db, w')
  | None => (Returned result, db, w')
  end.
Proof.
  unfold replicate_chunk. rewrite post_to_nodes_eq. simpl.
  by rewrite filter_not_refused.
Qed.

Lemma replicate_chunk_world db w c data nodes R :
  (replicate_chunk db w c data nodes R).2 = after_posts w c data nodes.
Proof. rewrite replicate_chunk_eq. simpl. repeat case_match; done. Qed.

Lemma store_chunk_to_nodes_world db w c data nodes :
  (store_chunk_to_nodes db w c data nodes).2 = after_posts w c data nodes.
Proof.
  unfold store_chunk_to_nodes.
  pose proof (replicate_chunk_world db w c data nodes REPLICATION_FACTOR) as H.
  destruct (replicate_chunk _ _ _ _ _ _) as [[[r|] db'] w']; simpl in *; by subst.
Qed.

Lemma store_chunk_to_nodes_true db w c data nodes :
  (store_chunk_to_nodes db w c data nodes).1.1 = true ->
  quorum REPLICATION_FACTOR <= Zlength (acked w c data nodes).
Proof.
  unfold store_chunk_to_nodes. rewrite replicate_chunk_eq. simpl.
  destruct (Zlength (acked w c data nodes) >=? quorum REPLICATION_FACTOR) eqn:E.
  - intros _. lia.
  - repeat case_match; simplify_eq; simpl; intros H; try done;
      by apply bool_decide_eq_true in H.
Qed.

(** When the chunk row is not visible in the committed store, the task
    leaves the store alone and the coordinator sees exactly the quorum test. *)
Lemma store_chunk_to_nodes_invisible db w c data nodes :
  first (fun x => bool_decide (Chunk.id x = c)) (chunks db) = None ->
  store_chunk_to_nodes db w c data nodes
  = (Zlength (acked w c data nodes) >=? quorum REPLICATION_FACTOR,
     db, after_posts w c data nodes).
Proof.
  intros H. unfold store_chunk_to_nodes. rewrite replicate_chunk_eq, H. simpl.
  by destruct (Zlength (acked w c data nodes) >=? quorum REPLICATION_FACTOR).
Qed.

Lemma assign_storage_nodes_spec draws :
  Zlength (assign_storage_nodes draws) = Z.min REPLICATION_FACTOR (Zlength STORAGE_NODES)
  /\ NoDup (assign_storage_nodes draws)
  /\ (forall n, n ∈ assign_storage_nodes draws -> n ∈ STORAGE_NODES).
Proof.
  unfold assign_storage_nodes.
  assert (Hnd : NoDup STORAGE_NODES).
  { apply (bool_decide_unpack _). vm_compute. exact I. }
  destruct (sample_spec
              (Z.to_nat (Z.min REPLICATION_FACTOR (Zlength STORAGE_NODES)))
              STORAGE_NODES draws Hnd) as (Hlen & Hnd' & Hsub).
  { vm_compute. lia. }
  split; [|done]. rewrite Zlength_correct, Hlen. vm_compute. reflexivity.
Qed.

(** C9 (amended). For each chunk the placement is a random sample without
    replacement of min(R, |STORAGE_NODES|) nodes of the configured node
    list, every ordered selection of distinct nodes being drawn by some
    outcome of the generator; node health is not consulted. Replication is
    always attempted on the placement (one POST to each sampled node),
    and the chunk is only failed afterwards, when fewer than Q of the
    POSTs were acknowledged. *)
Theorem placement_samples_configured_nodes (draws : list nat) (db : Db) (w : World)
    (chunk_id : string) (chunk_data : bytes) :
  Zlength (assign_storage_nodes draws)
    = Z.min REPLICATION_FACTOR (Zlength STORAGE_NODES)
  /\ NoDup (assign_storage_nodes draws)
  /\ (forall n, n ∈ assign_storage_nodes draws -> n ∈ STORAGE_NODES)
  /\ (forall l, NoDup l ->
        Zlength l = Z.min REPLICATION_FACTOR (Zlength STORAGE_NODES) ->
        (forall n, n ∈ l -> n ∈ STORAGE_NODES) ->
        exists draws', assign_storage_nodes draws' = l)
  /\ net_log (store_chunk_to_nodes db w chunk_id chunk_data
                (assign_storage_nodes draws)).2
     = net_log w ++ map (fun n => POST n chunk_id) (assign_storage_nodes draws)
  /\ ((store_chunk_to_nodes db w chunk_id chunk_data
         (assign_storage_nodes draws)).1.1 = true ->
      quorum REPLICATION_FACTOR
      <= Zlength (acked w chunk_id chunk_data (assign_storage_nodes draws)))
  /\ (first (fun x => bool_decide (Chunk.id x = chunk_id)) (chunks db) = None ->
      (store_chunk_to_nodes db w chunk_id chunk_data
         (assign_storage_nodes draws)).1.1 = false ->
      Zlength (acked w chunk_id chunk_data (assign_storage_nodes draws))
      < quorum REPLICATION_FACTOR).
Proof.
  destruct (assign_storage_nodes_spec draws) as (Hlen & Hnd & Hsub).
  split; [done|]. split; [done|]. split; [done|]. split; [|split; [|split]].
  - intros l Hl Hlen' Hin.
    destruct l as [|x [|y [|z [|]]]]; try (vm_compute in Hlen'; discriminate);
      [|rewrite !Zlength_cons in Hlen'; pose proof (Zlength_nonneg l);
        vm_compute (Z.min _ _) in Hlen'; lia].
    assert (Hmem : forall n, n ∈ STORAGE_NODES -> n = node1 \/ n = node2 \/ n = node3).
    { intros n Hn. unfold STORAGE_NODES in Hn.
      apply elem_of_cons in Hn as [->|Hn]; [by left|].
      apply elem_of_cons in Hn as [->|Hn]; [by right; left|].
      apply elem_of_cons in Hn as [->|Hn]; [by right; right|].
      by apply elem_of_nil in Hn. }
    assert (Hx : x = node1 \/ x = node2 \/ x = node3)
      by (apply Hmem, Hin, list_elem_of_here).
    assert (Hy : y = node1 \/ y = node2 \/ y = node3)
      by (apply Hmem, Hin, list_elem_of_further, list_elem_of_here).
    assert (Hz : z = node1 \/ z = node2 \/ z = node3)
      by (apply Hmem, Hin, list_elem_of_further, list_elem_of_further,
            list_elem_of_here).
    apply NoDup_cons in Hl as [Hxy Hl]. apply NoDup_cons in Hl as [Hyz _].
    assert (Hxy' : x <> y) by (intros ->; apply Hxy, list_elem_of_here).
    assert (Hxz' : x <> z)
      by (intros ->; apply Hxy, list_elem_of_further, list_elem_of_here).
    assert (Hyz' : y <> z) by (intros ->; apply Hyz, list_elem_of_here).
    clear Hin Hxy Hyz Hlen' Hmem.
    destruct Hx as [-> | [-> | ->]], Hy as [-> | [-> | ->]], Hz as [-> | [-> | ->]];
      try congruence.
    + by exists [0; 0; 0]%nat.
    + by exists [0; 1; 0]%nat.
    + by exists [1; 0; 0]%nat.
    + by exists [1; 1; 0]%nat.
    + by exists [2; 0; 0]%nat.
    + by exists [2; 1; 0]%nat.
  - by rewrite store_chunk_to_nodes_world, after_posts_log.
  - apply store_chunk_to_nodes_true.
  - intros Hnone. rewrite (store_chunk_to_nodes_invisible _ _ _ _ _ Hnone). simpl.
    intros H. rewrite Z.geb_leb in H. apply Z.leb_gt in H. lia.
Qed.

(** C9 (counterexample). No node is reachable, so fewer than Q are
    healthy; the placement still holds three nodes, none of them healthy,
    and a POST is sent to each before the chunk is failed. *)
Lemma placement_with_no_healthy_node :
  online all_offline = ∅
  /\ assign_storage_nodes (sample_draws ex_entropy 0) = [node1; node2; node3]
  /\ net_log offline_upload.2 = [POST node1 "c1"; POST node2 "c1"; POST node3 "c1"]
  /\ offline_upload.1.1.1 = Ok (mkUploadResponse "f1" "report.txt" 4 1 file_failed).
Proof. vm_compute. repeat split; reflexivity. Qed.

(** ** The Replicate task and the store *)

Lemma pk_ok_spec existing new :
  pk_ok existing new = true <-> NoDup new /\ forall k, k ∈ new -> k ∉ existing.
Proof.
  unfold pk_ok. rewrite andb_true_iff, bool_decide_eq_true, forallb_forall.
  split; intros [H1 H2]; (split; [done|]); intros k Hk.
  - apply list_elem_of_In, H2 in Hk. apply negb_true_iff in Hk.
    by apply bool_decide_eq_false in Hk.
  - apply negb_true_iff, bool_decide_eq_false, H2. by apply list_elem_of_In.
Qed.

Lemma pk_ok_nil existing : pk_ok existing [] = true.
Proof. apply pk_ok_spec. split; [constructor|]. intros k Hk. by apply elem_of_nil in Hk. Qed.

Lemma commit_replicas_eq db rs :
  commit_inserts db [] [] rs =
  if pk_ok (map ChunkReplica.id (chunk_replicas db)) (map ChunkReplica.id rs)
  then Some (mkDb (files db) (chunks db) (chunk_replicas db ++ rs) (file_shares db))
  else None.
Proof.
  unfold commit_inserts. cbn [map]. rewrite !pk_ok_nil, !app_nil_r. done.
Qed.

#[global] Instance replica_id_inj chunk_id : Inj (=) (=) (replica_id chunk_id).
Proof.
  intros n1 n2 H. unfold replica_id in H.
  apply (inj (String.append chunk_id)) in H.
  by apply (inj (String.append "_")) in H.
Qed.

Lemma map_replica_ids chunk_id nodes :
  map ChunkReplica.id (map (new_replica chunk_id) nodes) = map (replica_id chunk_id) nodes.
Proof. by rewrite map_map. Qed.

Lemma update_chunk_status_chunks db key s c :
  c ∈ chunks (update_chunk_status key s db) -> Chunk.id c = key -> Chunk.status c = s.
Proof.
  unfold update_chunk_status; simpl. intros Hc Hid.
  apply list_elem_of_fmap in Hc as (x & -> & Hx).
  destruct (decide (Chunk.id x = key)); [done|]. contradiction.
Qed.

Lemma quorum_positive R : 0 < quorum R <-> 0 <= R.
Proof. unfold quorum. Z.div_mod_to_equations. lia. Qed.

(** [replicate_chunk] against the nodes of the repository. *)
Lemma replicate_chunk_never_acked db w c data nodes R :
  replicate_chunk db w c data nodes R =
  let status := if 0 >=? quorum R then chunk_stored else chunk_failed in
  (Returned (mkReplicateResult c 0 nodes status),
   match first (fun x => bool_decide (Chunk.id x = c)) (chunks db) with
   | Some _ => update_chunk_status c status db
   | None => db
   end,
   with_log w (map (fun n => POST n c) nodes)).
Proof.
  rewrite replicate_chunk_eq, after_posts_eq, acked_nil, refused_all.
  cbn zeta. change (Zlength []) with 0.
  destruct (first _ _); [|done].
  destruct (0 >=? quorum R); [|done].
  rewrite commit_replicas_eq. cbn [map]. rewrite pk_ok_nil, app_nil_r. done.
Qed.






(** ** The chunk loop of an upload *)

Lemma first_None_ids (db : Db) (chunk_id : string) :
  chunk_id ∉ map Chunk.id (chunks db) ->
  first (fun c => bool_decide (Chunk.id c = chunk_id)) (chunks db) = None.
Proof.
  intros H. unfold first.
  destruct (find _ _) as [c|] eqn:E; [|done].
  apply find_some in E as [Hc Hid]. apply bool_decide_eq_true in Hid.
  exfalso. apply H. apply list_elem_of_fmap. exists c.
  split; [done|]. by apply list_elem_of_In.
Qed.

Lemma acked_after_posts c data nodes w c' data' nodes' :
  acked (after_posts w c data nodes) c' data' nodes' = acked w c' data' nodes'.
Proof.
  unfold acked. apply filter_ext. intros n.
  by rewrite !acknowledges_never.
Qed.

Lemma replicate_chunk_files db w c data nodes R :
  files (replicate_chunk db w c data nodes R).1.2 = files db
  /\ map Chunk.id (chunks (replicate_chunk db w c data nodes R).1.2)
     = map Chunk.id (chunks db).
Proof.
  assert (Hupd : forall s, map Chunk.id (chunks (update_chunk_status c s db))
                           = map Chunk.id (chunks db)).
  { intros s. unfold update_chunk_status; simpl. rewrite map_map.
    apply map_ext. intros x. by destruct (decide _). }
  rewrite replicate_chunk_eq. cbn zeta.
  destruct (first _ _); [|done].
  destruct (_ >=? _); [|by split; [|apply Hupd]].
  rewrite commit_replicas_eq.
  destruct (pk_ok _ _); [|done]. split; [done|]. apply Hupd.
Qed.

Lemma store_chunk_to_nodes_files db w c data nodes :
  files (store_chunk_to_nodes db w c data nodes).1.2 = files db
  /\ map Chunk.id (chunks (store_chunk_to_nodes db w c data nodes).1.2)
     = map Chunk.id (chunks db).
Proof.
  unfold store_chunk_to_nodes.
  pose proof (replicate_chunk_files db w c data nodes REPLICATION_FACTOR) as H.
  by destruct (replicate_chunk _ _ _ _ _ _) as [[[r|] db'] w'].
Qed.

Section UploadLoop.
Variables (rnd : Entropy) (file_id : string) (file_data : bytes) (file_size : Z).

Lemma acks_after_posts w c data nodes i :
  acks rnd file_data file_size (after_posts w c data nodes) i
  = acks rnd file_data file_size w i.
Proof. unfold acks. by rewrite acked_after_posts. Qed.

Lemma posts_for_online indices : forall w,
  online (posts_for rnd file_data file_size indices w) = online w.
Proof.
  induction indices as [|i rest IH]; intros w; simpl; [done|].
  by rewrite IH, after_posts_online.
Qed.

Lemma posts_for_log indices : forall w,
  net_log (posts_for rnd file_data file_size indices w)
  = net_log w
    ++ flat_map (fun i => map (fun n => POST n (chunk_uuid rnd i)) (placement rnd i)) indices.
Proof.
  induction indices as [|i rest IH]; intros w; simpl.
  - by rewrite app_nil_r.
  - by rewrite IH, after_posts_log, <- app_assoc.
Qed.

Lemma upload_chunks_shape indices : forall st,
  let st' := upload_chunks rnd file_id file_data file_size indices st in
  files (u_db st') = files (u_db st)
  /\ map Chunk.id (chunks (u_db st')) = map Chunk.id (chunks (u_db st))
  /\ (loop_completed rnd file_id file_data file_size indices st st'
      \/ exists pre k post,
           loop_failed_at rnd file_id file_data file_size indices st st' pre k post).
Proof.
  induction indices as [|i rest IH]; intros st; cbn zeta.
  - cbn [upload_chunks]. split; [done|]. split; [done|]. left.
    unfold loop_completed; cbn [map flat_map posts_for fold_left].
    rewrite !app_nil_r. repeat split; try done.
    intros j Hj. by apply elem_of_nil in Hj.
  - cbn [upload_chunks]. fold (chunk_payload file_data file_size i) (placement rnd i).
    pose proof (store_chunk_to_nodes_world (u_db st) (u_world st)
                  (chunk_uuid rnd i) (chunk_payload file_data file_size i) (placement rnd i)) as Hw.
    pose proof (store_chunk_to_nodes_files (u_db st) (u_world st)
                  (chunk_uuid rnd i) (chunk_payload file_data file_size i)
                  (placement rnd i)) as [Hf Hids].
    assert (Hvis : invisible rnd (u_db st) i ->
              store_chunk_to_nodes (u_db st) (u_world st)
                (chunk_uuid rnd i) (chunk_payload file_data file_size i) (placement rnd i)
              = (acks rnd file_data file_size (u_world st) i >=? quorum REPLICATION_FACTOR, u_db st,
                 after_posts (u_world st) (chunk_uuid rnd i) (chunk_payload file_data file_size i)
                             (placement rnd i))).
    { intros Hi. apply store_chunk_to_nodes_invisible. by apply first_None_ids. }
    destruct (store_chunk_to_nodes _ _ _ _ _) as [[ok db1] w1].
    cbn [fst snd] in Hw, Hf, Hids. subst w1.
    assert (Hhead : invisible rnd (u_db st) i ->
              db1 = u_db st
              /\ ok = (acks rnd file_data file_size (u_world st) i >=? quorum REPLICATION_FACTOR)).
    { intros Hi. specialize (Hvis Hi). by injection Hvis as -> ->. }
    clear Hvis. destruct ok.
    + match goal with |- context [upload_chunks _ _ _ _ rest ?s] =>
        specialize (IH s) end.
      cbn zeta in IH. destruct IH as (IHf & IHids & IH).
      cbn [u_db u_world u_chunks u_replicas u_file_status] in IHf, IHids.
      split; [by rewrite IHf|]. split; [by rewrite IHids|].
      assert (Hacks : invisible rnd (u_db st) i ->
                db1 = u_db st
                /\ quorum REPLICATION_FACTOR
                   <= acks rnd file_data file_size (u_world st) i).
      { intros Hi. destruct (Hhead Hi) as [-> Hq]. split; [done|].
        symmetry in Hq. rewrite Z.geb_leb in Hq. apply Z.leb_le in Hq. lia. }
      destruct IH as [(H1 & H2 & H3 & H4 & H5)
                     |(pre & k & post & H0 & H1 & H2 & H3 & H4 & H5)];
        cbn [u_db u_world u_chunks u_replicas u_file_status] in H1, H2, H3, H4, H5.
      * left. unfold loop_completed. rewrite H1, H2, H3, H4.
        cbn [map flat_map posts_for fold_left]. rewrite <- !app_assoc.
        split; [done|]. split; [done|]. split; [done|]. split; [done|].
        intros H. destruct (Hacks (H i (list_elem_of_here _ _))) as [Hdb Hq].
        subst db1. destruct H5 as [-> H6].
        { intros j Hj. apply H. by apply list_elem_of_further. }
        split; [done|].
        intros j Hj. apply elem_of_cons in Hj as [->|Hj]; [done|].
        specialize (H6 j Hj). by rewrite acks_after_posts in H6.
      * right. exists (i :: pre), k, post. unfold loop_failed_at.
        subst rest. rewrite H1, H2, H3, H4.
        cbn [map flat_map posts_for fold_left app]. rewrite <- !app_assoc.
        split; [done|]. split; [done|]. split; [done|]. split; [done|].
        split; [done|].
        intros H. destruct (Hacks (H i (list_elem_of_here _ _))) as [Hdb Hq].
        subst db1. destruct H5 as (-> & H6 & H7).
        { intros j Hj. apply H. by apply list_elem_of_further. }
        split; [done|]. split.
        -- intros j Hj. apply elem_of_cons in Hj as [->|Hj]; [done|].
           specialize (H6 j Hj). by rewrite acks_after_posts in H6.
        -- by rewrite acks_after_posts in H7.
    + cbn [u_db u_world u_chunks u_replicas u_file_status].
      split; [done|]. split; [done|]. right. exists [], i, rest.
      unfold loop_failed_at;
        cbn [u_db u_world u_chunks u_replicas u_file_status map flat_map
             posts_for fold_left app].
      rewrite app_nil_r.
      split; [done|]. split; [done|]. split; [done|]. split; [done|].
      split; [done|].
      intros H. destruct (Hhead (H i (list_elem_of_here _ _))) as [-> Hq].
      split; [done|]. split.
      * intros j Hj. by apply elem_of_nil in Hj.
      * symmetry in Hq. rewrite Z.geb_leb in Hq. apply Z.leb_gt in Hq. lia.
Qed.

End UploadLoop.

(** ** [range] *)

Lemma elem_of_range n i : i ∈ range n <-> 0 <= i < n.
Proof.
  unfold range. rewrite list_elem_of_fmap. split.
  - intros (k & -> & Hk). apply list_elem_of_In, in_seq in Hk. lia.
  - intros H. exists (Z.to_nat i). split; [lia|].
    apply list_elem_of_In, in_seq. lia.
Qed.

Lemma range_succ k : 0 <= k -> range (k + 1) = range k ++ [k].
Proof.
  intros H. unfold range.
  replace (Z.to_nat (k + 1)) with (S (Z.to_nat k)) by lia.
  rewrite seq_S, map_app. simpl. do 2 f_equal. lia.
Qed.

Lemma seq_split_at pre : forall a N k post,
  map Z.of_nat (seq a N) = pre ++ k :: post ->
  pre = map Z.of_nat (seq a (length pre))
  /\ k = Z.of_nat (a + length pre) /\ (length pre < N)%nat.
Proof.
  induction pre as [|p pre IH]; intros a N k post H.
  - destruct N as [|N]; [done|]. simpl in H. injection H as <- _.
    split; [done|]. split; [simpl; lia|simpl; lia].
  - destruct N as [|N]; [done|]. simpl in H. injection H as <- H.
    destruct (IH _ _ _ _ H) as (H1 & H2 & H3).
    split; [simpl; by rewrite <- H1|]. split; [rewrite H2; simpl; lia|simpl; lia].
Qed.

Lemma range_split n pre k post :
  range n = pre ++ k :: post -> pre = range k /\ 0 <= k < n.
Proof.
  unfold range. intros H. destruct (seq_split_at _ _ _ _ _ H) as (H1 & H2 & H3).
  simpl in H2. subst k. rewrite Nat2Z.id. split; [done|]. lia.
Qed.

(** ** The outcome of an upload *)

Lemma commit_inserts_Some db fs cs rs db' :
  commit_inserts db fs cs rs = Some db' ->
  db' = mkDb (files db ++ fs) (chunks db ++ cs) (chunk_replicas db ++ rs) (file_shares db)
  /\ pk_ok (map File.id (files db)) (map File.id fs) = true
  /\ pk_ok (map Chunk.id (chunks db)) (map Chunk.id cs) = true
  /\ pk_ok (map ChunkReplica.id (chunk_replicas db)) (map ChunkReplica.id rs) = true.
Proof.
  unfold commit_inserts.
  destruct (pk_ok (map File.id _) _); [|done].
  destruct (pk_ok (map Chunk.id _) _); [|done].
  destruct (pk_ok (map ChunkReplica.id _) _); [|done].
  by intros [= <-].
Qed.

(** What a successful commit of an upload has written, and why. *)
Lemma upload_file_outcome rnd db cache w file_data filename content_type current_user
    resp db' cache' w' :
  upload_file rnd db cache w file_data filename content_type current_user
  = (Ok resp, db', cache', w') ->
  let n := (Zlength file_data + CHUNK_SIZE - 1) / CHUNK_SIZE in
  let row := chunk_row rnd (file_uuid rnd) file_data (Zlength file_data) in
  let acks_of := acks rnd file_data (Zlength file_data) w in
  resp = mkUploadResponse (file_uuid rnd) filename (Zlength file_data) n (resp_status resp)
  /\ exists processed crows rrows,
       db' = mkDb (files db ++ [uploaded_file_row rnd file_data filename content_type
                                  current_user (resp_status resp)])
                  (chunks db ++ crows) (chunk_replicas db ++ rrows) (file_shares db)
       /\ w' = posts_for rnd file_data (Zlength file_data) processed w
       /\ (file_uuid rnd ∉ map File.id (files db))
       /\ NoDup (map Chunk.id crows)
       /\ (forall c, c ∈ crows -> Chunk.id c ∉ map Chunk.id (chunks db))
       /\ ((resp_status resp = file_completed
            /\ processed = range n
            /\ crows = map (row chunk_stored) (range n)
            /\ rrows = flat_map (replica_rows rnd) (range n)
            /\ forall i, i ∈ range n -> quorum REPLICATION_FACTOR <= acks_of i)
           \/ (resp_status resp = file_failed
               /\ exists k, 0 <= k < n
                    /\ processed = range (k + 1)
                    /\ crows = map (row chunk_stored) (range k) ++ [row chunk_failed k]
                    /\ rrows = flat_map (replica_rows rnd) (range k)
                    /\ (forall i, i ∈ range k -> quorum REPLICATION_FACTOR <= acks_of i)
                    /\ acks_of k < quorum REPLICATION_FACTOR)).
Proof.
  unfold upload_file. cbn zeta.
  set (n := (Zlength file_data + CHUNK_SIZE - 1) / CHUNK_SIZE).
  pose proof (upload_chunks_shape rnd (file_uuid rnd) file_data (Zlength file_data)
                (range n) (mkUploadState db w [] [] file_uploading)) as Hshape.
  cbn zeta in Hshape.
  set (st' := upload_chunks rnd (file_uuid rnd) file_data (Zlength file_data)
                (range n) (mkUploadState db w [] [] file_uploading)) in *.
  destruct Hshape as (Hfiles & Hids & Hshape).
  cbn [u_db u_world u_chunks u_replicas u_file_status] in Hfiles, Hids.
  destruct (commit_inserts _ _ _ _) as [db1|] eqn:Hcommit; [|done].
  intros [= <- <- _ <-]. cbn [resp_status]. split; [done|].
  apply commit_inserts_Some in Hcommit as (-> & Hpkf & Hpkc & _).
  apply pk_ok_spec in Hpkf as [_ Hpkf]. apply pk_ok_spec in Hpkc as [Hnd Hpkc].
  rewrite Hfiles in Hpkf. rewrite Hids in Hpkc.
  assert (Hfid : file_uuid rnd ∉ map File.id (files db)).
  { apply Hpkf. cbn. apply list_elem_of_here. }
  assert (Hinv : forall i, chunk_row rnd (file_uuid rnd) file_data (Zlength file_data)
                             chunk_stored i ∈ u_chunks st'
                           \/ chunk_row rnd (file_uuid rnd) file_data (Zlength file_data)
                                chunk_failed i ∈ u_chunks st' ->
                           invisible rnd db i).
  { intros i Hi. unfold invisible. apply Hpkc.
    destruct Hi as [Hi|Hi];
      apply (list_elem_of_fmap_2 Chunk.id) in Hi; exact Hi. }
  destruct Hshape as [(H1 & H2 & H3 & H4 & H5)
                     |(pre & k & post & H0 & H1 & H2 & H3 & H4 & H5)];
    cbn [u_db u_world u_chunks u_replicas u_file_status app] in H1, H2, H3, H4, H5.
  - assert (Hall : forall i, i ∈ range n -> invisible rnd db i).
    { intros i Hi. apply Hinv. left. rewrite H2. by apply list_elem_of_fmap_2. }
    destruct (H5 Hall) as [Hdb Hq].
    exists (range n), (u_chunks st'), (u_replicas st').
    rewrite Hdb, H1. rewrite decide_True by done.
    split; [done|]. split; [done|]. split; [done|]. split; [done|].
    split; [intros c Hc; apply Hpkc; by apply list_elem_of_fmap_2|].
    left. by rewrite H2, H3.
  - destruct (range_split _ _ _ _ H0) as [-> Hk].
    assert (Hall : forall i, i ∈ range k ++ [k] -> invisible rnd db i).
    { intros i Hi. apply Hinv. rewrite H2.
      apply elem_of_app in Hi as [Hi|Hi].
      - left. apply elem_of_app. left. by apply list_elem_of_fmap_2.
      - apply list_elem_of_singleton in Hi as ->. right.
        apply elem_of_app. right. apply list_elem_of_here. }
    destruct (H5 Hall) as (Hdb & Hq & Hqk).
    exists (range (k + 1)), (u_chunks st'), (u_replicas st').
    rewrite Hdb, H1. rewrite decide_False by (intros Hx; by apply Hx).
    rewrite range_succ by lia.
    split; [done|]. split; [done|]. split; [done|]. split; [done|].
    split; [intros c Hc; apply Hpkc; by apply list_elem_of_fmap_2|].
    right. split; [done|]. exists k. rewrite range_succ by lia. by rewrite H2, H3.
Qed.

Lemma chunk_row_index rnd file_id file_data file_size s l :
  map Chunk.chunk_index (map (chunk_row rnd file_id file_data file_size s) l) = l.
Proof. rewrite map_map. rewrite (map_ext _ id); [apply map_id|done]. Qed.



(** ** Splitting and joining the bytes *)

Lemma CHUNK_SIZE_pos : 0 < CHUNK_SIZE.
Proof. reflexivity. Qed.

Lemma py_take_nonpos {A} n (l : list A) : n <= 0 -> py_take n l = [].
Proof.
  intros H. destruct l as [|x l]; [done|]. simpl.
  destruct (n <=? 0) eqn:E; [done|]. apply Z.leb_gt in E. lia.
Qed.

Lemma py_drop_nonpos {A} n (l : list A) : n <= 0 -> py_drop n l = l.
Proof.
  intros H. destruct l as [|x l]; [done|]. simpl.
  destruct (n <=? 0) eqn:E; [done|]. apply Z.leb_gt in E. lia.
Qed.

Lemma py_take_all {A} (l : list A) : forall n, Zlength l <= n -> py_take n l = l.
Proof.
  induction l as [|x l IH]; intros n H; [done|]. simpl.
  rewrite Zlength_cons in H. pose proof (Zlength_nonneg l).
  destruct (n <=? 0) eqn:E; [apply Z.leb_le in E; lia|].
  f_equal. apply IH. lia.
Qed.

Lemma py_take_add {A} (l : list A) : forall a b,
  0 <= a -> 0 <= b -> py_take (a + b) l = py_take a l ++ py_take b (py_drop a l).
Proof.
  induction l as [|x l IH]; intros a b Ha Hb; [done|].
  destruct (Z.eq_dec a 0) as [->|Hne].
  - rewrite (py_take_nonpos 0), (py_drop_nonpos 0) by lia. done.
  - simpl. destruct (a <=? 0) eqn:E; [apply Z.leb_le in E; lia|].
    destruct (a + b <=? 0) eqn:E'; [apply Z.leb_le in E'; lia|].
    simpl. f_equal. replace (a + b - 1) with ((a - 1) + b) by lia.
    apply IH; lia.
Qed.

Lemma py_drop_add {A} (l : list A) : forall a b,
  0 <= a -> 0 <= b -> py_drop (a + b) l = py_drop b (py_drop a l).
Proof.
  induction l as [|x l IH]; intros a b Ha Hb; [done|].
  destruct (Z.eq_dec a 0) as [->|Hne].
  - rewrite (py_drop_nonpos 0) by lia. done.
  - simpl. destruct (a <=? 0) eqn:E; [apply Z.leb_le in E; lia|].
    destruct (a + b <=? 0) eqn:E'; [apply Z.leb_le in E'; lia|].
    replace (a + b - 1) with ((a - 1) + b) by lia.
    apply IH; lia.
Qed.

Lemma Zlength_py_drop {A} (l : list A) : forall a,
  0 <= a -> Zlength (py_drop a l) = Z.max 0 (Zlength l - a).
Proof.
  induction l as [|x l IH]; intros a Ha.
  - simpl. rewrite Zlength_nil. lia.
  - simpl. pose proof (Zlength_nonneg l).
    destruct (a <=? 0) eqn:E.
    + apply Z.leb_le in E. rewrite Zlength_cons. lia.
    + apply Z.leb_gt in E. rewrite IH, Zlength_cons by lia. lia.
Qed.

Lemma Zlength_0_nil {A} (l : list A) : Zlength l = 0 -> l = [].
Proof.
  destruct l; [done|]. rewrite Zlength_cons. pose proof (Zlength_nonneg l). lia.
Qed.

(** The bytes of chunk [i] are the next [CHUNK_SIZE] bytes, or what is left. *)
Lemma chunk_payload_take (file_data : bytes) (i : Z) :
  0 <= i ->
  chunk_payload file_data (Zlength file_data) i
  = py_take CHUNK_SIZE (py_drop (i * CHUNK_SIZE) file_data).
Proof.
  intros Hi. unfold chunk_payload, slice. pose proof CHUNK_SIZE_pos.
  assert (Ha : 0 <= i * CHUNK_SIZE) by nia.
  pose proof (Zlength_py_drop file_data _ Ha) as Hlen.
  destruct (Z.le_gt_cases (i * CHUNK_SIZE + CHUNK_SIZE) (Zlength file_data)).
  - rewrite Z.min_l by lia. f_equal. lia.
  - rewrite Z.min_r by lia.
    destruct (Z.le_gt_cases (i * CHUNK_SIZE) (Zlength file_data)).
    + rewrite !py_take_all; [done|lia|lia].
    + rewrite (Zlength_0_nil (py_drop (i * CHUNK_SIZE) file_data)) by lia. done.
Qed.

Lemma concat_payloads (file_data : bytes) (k : nat) : forall a : nat,
  concat (map (fun j => py_take CHUNK_SIZE
                          (py_drop (Z.of_nat j * CHUNK_SIZE) file_data))
              (seq a k))
  = py_take (Z.of_nat k * CHUNK_SIZE) (py_drop (Z.of_nat a * CHUNK_SIZE) file_data).
Proof.
  pose proof CHUNK_SIZE_pos.
  induction k as [|k IH]; intros a.
  - simpl. by rewrite py_take_nonpos.
  - cbn [seq map concat]. rewrite IH.
    replace (Z.of_nat (S k) * CHUNK_SIZE) with (CHUNK_SIZE + Z.of_nat k * CHUNK_SIZE) by lia.
    rewrite py_take_add by nia. f_equal. f_equal.
    replace (Z.of_nat (S a) * CHUNK_SIZE) with (Z.of_nat a * CHUNK_SIZE + CHUNK_SIZE) by lia.
    apply py_drop_add; nia.
Qed.

Lemma chunk_count_ceil (file_size : Z) :
  0 <= file_size ->
  let n := (file_size + CHUNK_SIZE - 1) / CHUNK_SIZE in
  0 <= n /\ (n - 1) * CHUNK_SIZE < file_size <= n * CHUNK_SIZE.
Proof.
  intros H. cbn zeta. pose proof CHUNK_SIZE_pos.
  pose proof (Z.div_mod (file_size + CHUNK_SIZE - 1) CHUNK_SIZE) as Hdm.
  pose proof (Z.mod_pos_bound (file_size + CHUNK_SIZE - 1) CHUNK_SIZE) as Hm.
  assert (0 <= (file_size + CHUNK_SIZE - 1) / CHUNK_SIZE)
    by (apply Z.div_pos; lia).
  split; [done|]. nia.
Qed.

(** Chunk coverage: the chunk payloads, in index order, concatenate to the
    uploaded bytes. *)
Lemma chunks_cover_upload (file_data : bytes) :
  concat (map (chunk_payload file_data (Zlength file_data))
              (range ((Zlength file_data + CHUNK_SIZE - 1) / CHUNK_SIZE)))
  = file_data.
Proof.
  destruct (chunk_count_ceil (Zlength file_data) (Zlength_nonneg _)) as (Hn & _ & Hle).
  unfold range. rewrite map_map.
  rewrite (map_ext _ (fun j => py_take CHUNK_SIZE
                                 (py_drop (Z.of_nat j * CHUNK_SIZE) file_data)))
    by (intros j; apply chunk_payload_take; lia).
  rewrite concat_payloads. rewrite (py_drop_nonpos (Z.of_nat 0 * CHUNK_SIZE)) by lia.
  apply py_take_all. rewrite Z2Nat.id by lia. lia.
Qed.

(** ** Reading back after an upload *)

Lemma filter_none {A} (p : A -> bool) (l : list A) :
  (forall x, x ∈ l -> p x = false) -> List.filter p l = [].
Proof.
  induction l as [|x l IH]; intros H; [done|]. simpl.
  rewrite (H x (list_elem_of_here _ _)). apply IH.
  intros y Hy. apply H. by apply list_elem_of_further.
Qed.

Lemma filter_all {A} (p : A -> bool) (l : list A) :
  (forall x, x ∈ l -> p x = true) -> List.filter p l = l.
Proof.
  induction l as [|x l IH]; intros H; [done|]. simpl.
  rewrite (H x (list_elem_of_here _ _)). f_equal. apply IH.
  intros y Hy. apply H. by apply list_elem_of_further.
Qed.

Lemma first_app_last {A} (p : A -> bool) (l : list A) (x : A) :
  p x = true -> is_Some (first p (l ++ [x])).
Proof.
  intros Hx. unfold first. induction l as [|y l IH]; simpl.
  - rewrite Hx. eauto.
  - destruct (p y); eauto.
Qed.

Lemma chunks_of_file_uploaded db f crows rrows shares file_id :
  (forall c, c ∈ chunks db -> Chunk.file_id c ∈ map File.id (files db)) ->
  file_id ∉ map File.id (files db) ->
  (forall c, c ∈ crows -> Chunk.file_id c = file_id) ->
  chunks_of_file (mkDb f (chunks db ++ crows) rrows shares) file_id = crows.
Proof.
  intros Hfk Hfresh Hnew. unfold chunks_of_file. cbn [chunks].
  rewrite List.filter_app, filter_none, filter_all; [done| |].
  - intros c Hc. apply bool_decide_eq_true. by apply Hnew.
  - intros c Hc. apply bool_decide_eq_false. intros Heq.
    apply Hfresh. rewrite <- Heq. by apply Hfk.
Qed.

Lemma replica_nodes_fresh db f c shares chunk_id :
  (forall r, r ∈ chunk_replicas db ->
     ChunkReplica.chunk_id r ∈ map Chunk.id (chunks db)) ->
  chunk_id ∉ map Chunk.id (chunks db) ->
  replica_nodes (mkDb f c (chunk_replicas db) shares) chunk_id = [].
Proof.
  intros Hfk Hfresh. unfold replica_nodes. cbn [chunk_replicas].
  rewrite filter_none; [done|].
  intros r Hr. apply bool_decide_eq_false. intros Heq.
  apply Hfresh. rewrite <- Heq. by apply Hfk.
Qed.

Lemma quorum_configured : quorum REPLICATION_FACTOR = 2.
Proof. reflexivity. Qed.

Lemma chunk_count_pos (B : bytes) :
  B <> [] -> 1 <= (Zlength B + CHUNK_SIZE - 1) / CHUNK_SIZE.
Proof.
  intros HB. assert (0 < Zlength B).
  { destruct B as [|b B]; [done|]. rewrite Zlength_cons.
    pose proof (Zlength_nonneg B). lia. }
  pose proof CHUNK_SIZE_pos. apply Z.div_le_lower_bound; lia.
Qed.

Lemma acks_zero rnd file_data file_size w i : acks rnd file_data file_size w i = 0.
Proof. unfold acks. by rewrite acked_nil. Qed.

(** A file whose one chunk has no Replica row cannot be downloaded. *)
Lemma download_without_replicas db cache w file_id current_user c :
  is_Some (get_file_metadata cache file_id)
  \/ is_Some (first (fun f => bool_decide (File.id f = file_id)
                              && bool_decide (File.owner_id f = current_user))
                    (files db)) ->
  chunks_of_file db file_id = [c] ->
  replica_nodes db (Chunk.id c) = [] ->
  (download_file db cache w file_id current_user).1.1 = HTTPException 500.
Proof.
  intros Hlookup Hcs Hrep. unfold download_file.
  set (lookup := match get_file_metadata cache file_id with
                 | Some metadata => Some (metadata, cache)
                 | None => _
                 end).
  assert (Hl : is_Some lookup).
  { unfold lookup. destruct (get_file_metadata cache file_id); [eauto|].
    destruct Hlookup as [[? ?]|[fr Hfr]]; [done|]. rewrite Hfr. eauto. }
  destruct Hl as [[fr c1] ->].
  rewrite Hcs. cbn [order_by_chunk_index foldr insert_by_index retrieve_chunks].
  rewrite Hrep, retrieve_chunk_from_nodes_eq.
  destruct (truthy (get_chunk_data c1 (Chunk.id c))).
  - by destruct (get_chunk_data c1 (Chunk.id c)).
  - done.
Qed.

(** C3 (the divergence, for every non-empty [B]). Storing [B] records
    the chunk count ⌈|B| / CHUNK_SIZE⌉ and SHA-256([B]) in the File row,
    but the upload never completes: no storage node of the repository
    acknowledges the POST of chunk 0, so an upload that commits returns
    [failed], has recorded one chunk row, of index 0 and status [failed],
    and no Replica row, and has sent requests for chunk 0 only, which
    wrote nothing. No later download of the file by its owner returns
    [B]: whatever the cache and the nodes hold, it ends in 500. *)
Theorem upload_then_download_fails (rnd : Entropy) (db : Db) (cache : Cache)
    (w : World) (B : bytes) (filename : string) (content_type : option string)
    (current_user : string) (resp : UploadResponse) (db' : Db) (cache' : Cache)
    (w' : World) :
  B <> [] ->
  fk_ok db ->
  upload_file rnd db cache w B filename content_type current_user
  = (Ok resp, db', cache', w') ->
  resp = mkUploadResponse (file_uuid rnd) filename (Zlength B)
                          ((Zlength B + CHUNK_SIZE - 1) / CHUNK_SIZE) file_failed
  /\ 1 <= resp_chunk_count resp
  /\ files db'
     = files db ++ [uploaded_file_row rnd B filename content_type current_user
                      file_failed]
  /\ File.checksum (uploaded_file_row rnd B filename content_type current_user
                      file_failed) = SHA256.hexdigest B
  /\ chunks_of_file db' (resp_file_id resp)
     = [chunk_row rnd (file_uuid rnd) B (Zlength B) chunk_failed 0]
  /\ chunk_replicas db' = chunk_replicas db
  /\ replica_nodes db' (chunk_uuid rnd 0) = []
  /\ w' = with_log w (map (fun n => POST n (chunk_uuid rnd 0)) (placement rnd 0))
  /\ disk w' = disk w
  /\ forall cache2 w2,
       (download_file db' cache2 w2 (resp_file_id resp) current_user).1.1
       = HTTPException 500.
Proof.
  intros HB [Hfkc Hfkr] Hup. apply upload_file_outcome in Hup. cbn zeta in Hup.
  destruct Hup as (Hresp & processed & crows & rrows & -> & -> & Hfid & Hnd & Hfresh
                   & Hcase).
  pose proof (chunk_count_pos B HB) as Hn.
  set (n := (Zlength B + CHUNK_SIZE - 1) / CHUNK_SIZE) in *.
  assert (H0 : 0 ∈ range n) by (apply elem_of_range; lia).
  destruct Hcase as [(_ & _ & _ & _ & Hq)|(Hst & k & Hk & -> & -> & -> & Hq & _)].
  { specialize (Hq 0 H0). rewrite acks_zero, quorum_configured in Hq. lia. }
  assert (k = 0) as ->.
  { destruct (decide (k = 0)) as [|Hne]; [done|].
    assert (Hk0 : 0 ∈ range k) by (apply elem_of_range; lia).
    specialize (Hq 0 Hk0). rewrite acks_zero, quorum_configured in Hq. lia. }
  change (range (0 + 1)) with [0] in *. change (range 0) with (@nil Z) in *.
  cbn [map flat_map app posts_for fold_left] in *. rewrite app_nil_r in *.
  rewrite Hst in *. rewrite after_posts_eq.
  assert (Hid : resp_file_id resp = file_uuid rnd) by (rewrite Hresp; done).
  assert (Hc0 : chunk_uuid rnd 0 ∉ map Chunk.id (chunks db)).
  { apply (Hfresh (chunk_row rnd (file_uuid rnd) B (Zlength B) chunk_failed 0)).
    apply list_elem_of_here. }
  assert (Hcs : chunks_of_file
                  (mkDb (files db ++ [uploaded_file_row rnd B filename content_type
                                        current_user file_failed])
                        (chunks db ++ [chunk_row rnd (file_uuid rnd) B (Zlength B)
                                         chunk_failed 0])
                        (chunk_replicas db) (file_shares db)) (file_uuid rnd)
                = [chunk_row rnd (file_uuid rnd) B (Zlength B) chunk_failed 0]).
  { apply chunks_of_file_uploaded; [done|done|].
    intros c Hc. by apply list_elem_of_singleton in Hc as ->. }
  assert (Hrn : replica_nodes
                  (mkDb (files db ++ [uploaded_file_row rnd B filename content_type
                                        current_user file_failed])
                        (chunks db ++ [chunk_row rnd (file_uuid rnd) B (Zlength B)
                                         chunk_failed 0])
                        (chunk_replicas db) (file_shares db)) (chunk_uuid rnd 0)
                = []).
  { by apply replica_nodes_fresh. }
  rewrite Hid. split; [done|]. split; [rewrite Hresp; cbn; lia|].
  split; [done|]. split; [done|]. split; [done|]. split; [done|].
  split; [done|]. split; [done|]. split; [done|].
  intros cache2 w2.
  apply (download_without_replicas _ _ _ _ _
           (chunk_row rnd (file_uuid rnd) B (Zlength B) chunk_failed 0));
    [|done|done].
  right. cbn [files]. apply first_app_last.
  cbn. by rewrite !bool_decide_eq_true_2.
Qed.

Lemma fk_ok_empty : fk_ok empty_db.
Proof. split; intros x Hx; by apply elem_of_nil in Hx. Qed.

(** C3 at the upload of [report.txt] with every node reachable. *)
Lemma upload_then_download_witness :
  online all_online = {[node1; node2; node3]}
  /\ ex_upload.1.1.1 = Ok (mkUploadResponse "f1" "report.txt" 4 1 file_failed)
  /\ chunk_statuses ex_upload.1.1.2 = [("c1"%string, chunk_failed)]
  /\ chunk_replicas ex_upload.1.1.2 = []
  /\ ex_upload.2
     = with_log all_online [POST node1 "c1"; POST node2 "c1"; POST node3 "c1"]
  /\ (download_file ex_upload.1.1.2 empty_cache ex_upload.2 "f1" "alice").1.1
     = HTTPException 500.
Proof.
  split; [reflexivity|]. split; [vm_compute; reflexivity|].
  split; [vm_compute; reflexivity|]. split; [vm_compute; reflexivity|].
  destruct (upload_then_download_fails ex_entropy empty_db empty_cache all_online
              (bytes_of "data") "report.txt" (Some "text/plain"%string) "alice"
              (mkUploadResponse "f1" "report.txt" 4 1 file_failed)
              ex_upload.1.1.2 ex_upload.1.2 ex_upload.2)
    as (_ & _ & _ & _ & _ & _ & _ & Hw & _ & H).
  - discriminate.
  - apply fk_ok_empty.
  - vm_compute. reflexivity.
  - split; [exact Hw|]. apply H.
Defined.

(** ** Keys and queries *)

Lemma pk_ok_single existing k : pk_ok existing [k] = true <-> k ∉ existing.
Proof.
  rewrite pk_ok_spec. split.
  - intros [_ H]. apply H, list_elem_of_here.
  - intros H. split; [apply NoDup_singleton|].
    by intros k' ->%list_elem_of_singleton.
Qed.

Lemma first_app_new {A} (p : A -> bool) (l : list A) (x : A) :
  (forall y, y ∈ l -> p y = false) -> p x = true -> first p (l ++ [x]) = Some x.
Proof.
  intros Hl Hx. unfold first. induction l as [|y l IH]; simpl.
  - by rewrite Hx.
  - rewrite (Hl y (list_elem_of_here _ _)). apply IH.
    intros z Hz. apply Hl. by apply list_elem_of_further.
Qed.

(** ** The storage node *)

Section NodeProperties.
Import StorageNode.

Lemma retrieve_chunk_files v c :
  (retrieve_chunk v c).1
  = match chunk_files v !! (str_take 2 c, c) with
    | Some d => Ok d
    | None => HTTPException 404
    end.
Proof. unfold retrieve_chunk; simpl. by destruct (_ !! _). Qed.

Lemma retrieve_chunk_keeps_files v c :
  chunk_files (retrieve_chunk v c).2 = chunk_files v.
Proof. unfold retrieve_chunk; simpl. by destruct (_ !! _). Qed.

Lemma store_chunk_files v c data :
  chunk_files (store_chunk v c data).2
  = if Zlength data >? MAX_CHUNK_SIZE then chunk_files v
    else <[(str_take 2 c, c) := data]> (chunk_files v).
Proof. unfold store_chunk. by destruct (_ >? _). Qed.

Lemma delete_chunk_files v c :
  chunk_files (delete_chunk v c).2 = delete (str_take 2 c, c) (chunk_files v).
Proof.
  unfold delete_chunk; simpl. destruct (_ !! _) eqn:E; simpl; [done|].
  by rewrite delete_id.
Qed.



Lemma stats_step_comm (d1 d2 : bytes) (s : Stats) :
  mkStats (total_size (mkStats (total_size s + Zlength d2) (chunk_count s + 1))
           + Zlength d1)
          (chunk_count (mkStats (total_size s + Zlength d2) (chunk_count s + 1)) + 1)
  = mkStats (total_size (mkStats (total_size s + Zlength d1) (chunk_count s + 1))
             + Zlength d2)
            (chunk_count (mkStats (total_size s + Zlength d1) (chunk_count s + 1)) + 1).
Proof. simpl. f_equal; lia. Qed.

Lemma get_storage_stats_insert ds ds' m p d :
  m !! p = None ->
  get_storage_stats (mkVolume ds' (<[p := d]> m))
  = mkStats (total_size (get_storage_stats (mkVolume ds m)) + Zlength d)
            (chunk_count (get_storage_stats (mkVolume ds m)) + 1).
Proof.
  intros Hp. unfold get_storage_stats; simpl.
  rewrite map_fold_insert_L; [done| |done].
  intros. apply stats_step_comm.
Qed.

Lemma get_storage_stats_delete ds ds' m p d :
  m !! p = Some d ->
  get_storage_stats (mkVolume ds m)
  = mkStats (total_size (get_storage_stats (mkVolume ds' (delete p m))) + Zlength d)
            (chunk_count (get_storage_stats (mkVolume ds' (delete p m))) + 1).
Proof.
  intros Hp. unfold get_storage_stats; simpl.
  rewrite (map_fold_delete_L _ _ p d m); [done| |done].
  intros. apply stats_step_comm.
Qed.

Lemma get_chunk_info_files v c :
  (get_chunk_info v c).1
  = match chunk_files v !! (str_take 2 c, c) with
    | Some d => Ok (mkInfo c (Zlength d) true)
    | None => HTTPException 404
    end.
Proof. unfold get_chunk_info; simpl. by destruct (_ !! _). Qed.




Lemma sharded_serve v c : sharded v -> sharded (serve v c).
Proof.
  intros Hv p d. destruct c as [c data|c|c|c]; simpl.
  - unfold store_chunk. destruct (_ >? _) eqn:E; [apply Hv|].
    cbn [get_chunk_path snd fst dirs chunk_files].
    rewrite Z.gtb_ltb in E. apply Z.ltb_ge in E.
    destruct (decide (p = (str_take 2 c, c))) as [->|Hne].
    + rewrite lookup_insert_eq. intros [= <-]. simpl. split; [done|].
      split; [set_solver|done].
    + rewrite lookup_insert_ne by done. intros H.
      destruct (Hv p d H) as (H1 & H2 & H3). split; [done|]. split; [set_solver|done].
  - unfold retrieve_chunk. cbn [get_chunk_path snd fst dirs chunk_files].
    destruct (chunk_files v !! _); simpl; intros H;
      destruct (Hv p d H) as (H1 & H2 & H3); (split; [done|]); (split; [set_solver|done]).
  - unfold delete_chunk. cbn [get_chunk_path snd fst dirs chunk_files].
    destruct (chunk_files v !! (_, c)); simpl; intros H.
    + apply lookup_delete_Some in H as [_ H].
      destruct (Hv p d H) as (H1 & H2 & H3). split; [done|]. split; [set_solver|done].
    + destruct (Hv p d H) as (H1 & H2 & H3). split; [done|]. split; [set_solver|done].
  - unfold get_chunk_info. cbn [get_chunk_path snd fst dirs chunk_files].
    destruct (chunk_files v !! _); simpl; intros H;
      destruct (Hv p d H) as (H1 & H2 & H3); (split; [done|]); (split; [set_solver|done]).
Qed.

Lemma sharded_stats v :
  sharded v ->
  0 <= chunk_count (get_storage_stats v)
  /\ total_size (get_storage_stats v)
     <= chunk_count (get_storage_stats v) * MAX_CHUNK_SIZE.
Proof.
  unfold sharded, get_storage_stats. destruct v as [ds m]; simpl.
  induction m as [|p d m Hp IH] using map_ind; intros Hm.
  - rewrite map_fold_empty. simpl. lia.
  - rewrite map_fold_insert_L; [|intros; apply stats_step_comm|done]. simpl.
    destruct IH as [IH1 IH2].
    { intros q e Hq. apply (Hm q e). rewrite lookup_insert_ne; [done|]. congruence. }
    destruct (Hm p d) as (_ & _ & Hd); [apply lookup_insert_eq|]. nia.
Qed.

(** X5. After any sequence of store, retrieve, delete and info requests
    that starts on the empty volume: every chunk that a retrieve returns
    has at most [MAX_CHUNK_SIZE] bytes and its shard directory exists,
    every chunk file lies in the directory named by the first two
    characters of its id, and 0 <= total_size <= chunk_count *
    MAX_CHUNK_SIZE. *)
Theorem node_volume_invariant (calls : list Call) :
  let v := foldl serve empty_volume calls in
  (forall chunk_id chunk_data,
     (retrieve_chunk v chunk_id).1 = Ok chunk_data ->
     str_take 2 chunk_id ∈ dirs v /\ Zlength chunk_data <= MAX_CHUNK_SIZE)
  /\ (forall p, is_Some (chunk_files v !! p) -> p.1 = str_take 2 p.2)
  /\ 0 <= total_size (get_storage_stats v)
       <= chunk_count (get_storage_stats v) * MAX_CHUNK_SIZE.
Proof.
  cbv zeta.
  assert (Hs : sharded (foldl serve empty_volume calls)).
  { assert (H0 : sharded empty_volume)
      by (intros p d H; simpl in H; by rewrite lookup_empty in H).
    revert H0. generalize empty_volume.
    induction calls as [|c calls IH]; intros v Hv; simpl; [done|].
    apply IH. by apply sharded_serve. }
  split; [|split].
  - intros c d. rewrite retrieve_chunk_files.
    destruct (_ !! _) as [d'|] eqn:E; [|done]. intros [= ->].
    destruct (Hs _ _ E) as (_ & H2 & H3). done.
  - intros p [d Hd]. by destruct (Hs _ _ Hd).
  - destruct (sharded_stats _ Hs) as [H1 H2]. split; [|done].
    clear Hs H1 H2. unfold get_storage_stats.
    induction (chunk_files (foldl serve empty_volume calls)) as [|p d m Hp IH]
      using map_ind.
    + by rewrite map_fold_empty.
    + rewrite map_fold_insert_L; [|intros; apply stats_step_comm|done]. simpl.
      pose proof (Zlength_nonneg d). lia.
Qed.

(** The shard of an id is cut by characters, not by bytes: the id whose
    first character is encoded on two bytes keeps that character and the
    next one. *)
Example str_take_characters :
  str_take 2 "c1-0f3a" = "c1"%string
  /\ str_take 2 (String (ascii_of_nat 195) (String (ascii_of_nat 169) "1x"))
     = String (ascii_of_nat 195) (String (ascii_of_nat 169) "1").
Proof. split; reflexivity. Qed.

End NodeProperties.

(** ** The POST loop against the nodes *)


(** ** Cache keys *)

(** X7. Two cache entries have the same Redis key only if they are the
    same entry: the key prefixes keep the kinds of entry apart, and within
    a kind the key determines the id. *)
Theorem cache_keys_do_not_collide (e1 e2 : CacheEntry) :
  redis_key e1 = redis_key e2 <-> e1 = e2.
Proof.
  split; [|by intros ->].
  destruct e1, e2; intros H; cbv in H; try discriminate H; try reflexivity;
    by injection H as ->.
Qed.

(** ** Accounts *)

Lemma NoDup_snoc_fresh (l : list string) (k : string) :
  NoDup l -> k ∉ l -> NoDup (l ++ [k]).
Proof.
  intros Hl Hk. apply NoDup_app. split; [done|]. split; [|apply NoDup_singleton].
  by intros x Hx ->%list_elem_of_singleton.
Qed.

(** X8. Registration keeps ids, user names and e-mail addresses unique,
    never changes an existing account, and answers 400 exactly when the
    user name or the e-mail address is already registered. *)
Theorem register_keeps_users_unique user_uuid password_hash users username email :
  users_unique users ->
  let r := register user_uuid password_hash users username email in
  users_unique r.2
  /\ users `prefix_of` r.2
  /\ (status_code_of r.1 = 400 <->
      exists u, u ∈ users /\ (User.username u = username \/ User.email u = email)).
Proof.
  intros (Hid & Hname & Hmail). cbv zeta. unfold register.
  destruct (first _ users) as [u|] eqn:Hu.
  - cbn [fst snd]. split; [done|]. split; [done|]. split; [intros _|done].
    apply first_Some_elem in Hu as [Hin Hp]. exists u. split; [done|].
    apply orb_true_iff in Hp as [Hp|Hp]; apply bool_decide_eq_true in Hp; tauto.
  - assert (Hnone : forall v, v ∈ users ->
              User.username v <> username /\ User.email v <> email).
    { intros v Hv. unfold first in Hu.
      pose proof (find_none _ _ Hu v (proj1 (list_elem_of_In _ _) Hv)) as Hp.
      apply orb_false_iff in Hp as [H1 H2].
      by apply bool_decide_eq_false in H1, H2. }
    cbn [User.id User.username User.email].
    destruct (pk_ok (map User.id users) _) eqn:H1; cbn [andb fst snd].
    2:{ split; [done|]. split; [done|]. split; [done|].
        intros (v & Hv & Hor). destruct (Hnone v Hv). tauto. }
    assert (H2 : pk_ok (map User.username users) [username] = true).
    { apply pk_ok_single. intros Hin. apply list_elem_of_fmap in Hin as (v & Hv & Hin).
      by destruct (Hnone v Hin). }
    assert (H3 : pk_ok (map User.email users) [email] = true).
    { apply pk_ok_single. intros Hin. apply list_elem_of_fmap in Hin as (v & Hv & Hin).
      by destruct (Hnone v Hin). }
    rewrite H2, H3. cbn [andb fst snd]. apply pk_ok_single in H1, H2, H3.
    split; [|split; [by eexists|]].
    + unfold users_unique. rewrite !map_app. cbn [map User.id User.username User.email].
      split; [|split]; by apply NoDup_snoc_fresh.
    + split; [done|]. intros (v & Hv & Hor). destruct (Hnone v Hv). tauto.
Qed.

(** X8 for a new account and for one whose e-mail address is taken. *)
Lemma register_keeps_users_unique_witness :
  users_unique ex_users
  /\ users_unique (register "u2" "h2" ex_users "bob" "bob@example.com").2
  /\ (register "u2" "h2" ex_users "bob" "alice@example.com").1 = HTTPException 400.
Proof.
  assert (H : users_unique ex_users).
  { split; [|split]; apply (bool_decide_unpack _); vm_compute; exact I. }
  split; [exact H|].
  split; [|vm_compute; reflexivity].
  exact (proj1 (register_keeps_users_unique "u2" "h2" ex_users "bob" "bob@example.com" H)).
Defined.

(** X9. After a registration that succeeded, a login with the registered
    user name succeeds exactly when the password verifies against the hash
    that was stored, and is answered 401 otherwise. *)
Theorem register_then_login verify_password user_uuid password_hash users username email
    password user_id users' :
  register user_uuid password_hash users username email = (Ok user_id, users') ->
  user_id = user_uuid
  /\ login verify_password users' username password
     = if verify_password password password_hash then Ok user_uuid
       else HTTPException 401.
Proof.
  unfold register. destruct (first _ users) as [u|] eqn:Hu; [done|].
  destruct (_ && _); [|done]. cbn [User.id]. intros [= <- <-]. split; [done|].
  unfold login. rewrite first_app_new.
  - cbn [User.password_hash User.id]. by destruct (verify_password _ _).
  - intros v Hv. unfold first in Hu.
    pose proof (find_none _ _ Hu v (proj1 (list_elem_of_In _ _) Hv)) as Hp.
    by apply orb_false_iff in Hp as [H1 _].
  - cbn. by apply bool_decide_eq_true.
Qed.

(** X9 with a password check that compares the two strings. *)
Lemma register_then_login_witness :
  login String.eqb (register "u2" "secret" ex_users "bob" "bob@example.com").2
        "bob" "secret" = Ok "u2"%string
  /\ login String.eqb (register "u2" "secret" ex_users "bob" "bob@example.com").2
           "bob" "guess" = HTTPException 401.
Proof.
  assert (E : register "u2" "secret" ex_users "bob" "bob@example.com"
              = (Ok "u2"%string,
                 (register "u2" "secret" ex_users "bob" "bob@example.com").2))
    by (vm_compute; reflexivity).
  split.
  - exact (proj2 (register_then_login String.eqb _ _ _ _ _ "secret" _ _ E)).
  - exact (proj2 (register_then_login String.eqb _ _ _ _ _ "guess" _ _ E)).
Defined.

(** ** The sizes of the chunks *)

Lemma Zlength_py_take {A} (l : list A) : forall n,
  Zlength (py_take n l) = Z.min (Z.max 0 n) (Zlength l).
Proof.
  induction l as [|x l IH]; intros n; simpl.
  - rewrite Zlength_nil. lia.
  - pose proof (Zlength_nonneg l). destruct (n <=? 0) eqn:E.
    + apply Z.leb_le in E. rewrite Zlength_nil, Zlength_cons. lia.
    + apply Z.leb_gt in E. rewrite !Zlength_cons, IH. lia.
Qed.

Lemma Zlength_chunk_payload (file_data : bytes) (i : Z) :
  0 <= i ->
  Zlength (chunk_payload file_data (Zlength file_data) i)
  = Z.min CHUNK_SIZE (Z.max 0 (Zlength file_data - i * CHUNK_SIZE)).
Proof.
  intros Hi. rewrite chunk_payload_take by done. pose proof CHUNK_SIZE_pos.
  rewrite Zlength_py_take, Zlength_py_drop by nia. lia.
Qed.

Lemma Zlength_concat_sizes {A} (ls : list (list A)) :
  Zlength (concat ls) = sum_sizes (map (@Zlength A) ls).
Proof.
  induction ls as [|l ls IH]; [done|]. simpl. by rewrite Zlength_app, IH.
Qed.



(** ** The empty file *)

(** X11. Uploading zero bytes under a fresh file id completes with
    chunk_count 0: one File row is written, no Chunk or Replica row, no
    request is sent to a node, and the uploader's download of that file
    returns zero bytes without contacting a node. *)
Theorem upload_empty_file rnd db cache w filename content_type current_user :
  file_uuid rnd ∉ map File.id (files db) ->
  upload_file rnd db cache w [] filename content_type current_user
  = (Ok (mkUploadResponse (file_uuid rnd) filename 0 0 file_completed),
     mkDb (files db ++ [uploaded_file_row rnd [] filename content_type current_user
                          file_completed])
          (chunks db) (chunk_replicas db) (file_shares db),
     invalidate_user_files cache current_user, w)
  /\ forall cache2 w2,
       get_file_metadata cache2 (file_uuid rnd) = None ->
       (forall c, c ∈ chunks db -> Chunk.file_id c <> file_uuid rnd) ->
       download_file
         (mkDb (files db ++ [uploaded_file_row rnd [] filename content_type current_user
                               file_completed])
               (chunks db) (chunk_replicas db) (file_shares db))
         cache2 w2 (file_uuid rnd) current_user
       = (Ok [], set_file_metadata cache2 (file_uuid rnd)
                   (uploaded_file_row rnd [] filename content_type current_user
                      file_completed), w2).
Proof.
  intros Hfresh. split.
  - unfold upload_file. change (Zlength (@nil byte)) with 0.
    change ((0 + CHUNK_SIZE - 1) / CHUNK_SIZE) with 0.
    change (range 0) with (@nil Z).
    cbn [upload_chunks u_db u_chunks u_replicas u_file_status
         u_world].
    rewrite decide_True by done.
    unfold commit_inserts. cbn [map File.id].
    rewrite (proj2 (pk_ok_single _ _) Hfresh), !pk_ok_nil. cbn [andb].
    by rewrite !app_nil_r.
  - intros cache2 w2 Hmiss Hnone. unfold download_file. rewrite Hmiss. cbn [files].
    destruct (first_app_last
                (fun f => bool_decide (File.id f = file_uuid rnd)
                          && bool_decide (File.owner_id f = current_user))
                (files db)
                (uploaded_file_row rnd [] filename content_type current_user
                   file_completed)) as [fr Hfr].
    { cbn. by rewrite !bool_decide_eq_true_2. }
    rewrite Hfr.
    assert (fr = uploaded_file_row rnd [] filename content_type current_user
                   file_completed) as ->.
    { apply first_Some_elem in Hfr as [Hin Hp].
      apply elem_of_app in Hin as [Hin|Hin].
      - exfalso. apply Hfresh. apply andb_true_iff in Hp as [Hp _].
        apply bool_decide_eq_true in Hp. rewrite <- Hp.
        by apply (list_elem_of_fmap_2 File.id).
      - by apply list_elem_of_singleton in Hin. }
    unfold chunks_of_file. cbn [chunks]. rewrite filter_none; [done|].
    intros c Hc. apply bool_decide_eq_false. by apply Hnone.
Qed.

(** X11 at an empty store with every node offline. *)
Lemma upload_empty_file_witness :
  (file_uuid ex_entropy ∉ map File.id (files empty_db))
  /\ upload_file ex_entropy empty_db empty_cache all_offline [] "empty.txt" None "alice"
     = (Ok (mkUploadResponse "f1" "empty.txt" 0 0 file_completed),
        mkDb [uploaded_file_row ex_entropy [] "empty.txt" None "alice" file_completed]
             [] [] [],
        invalidate_user_files empty_cache "alice", all_offline).
Proof.
  assert (H : file_uuid ex_entropy ∉ map File.id (files empty_db))
    by apply not_elem_of_nil.
  split; [exact H|].
  exact (proj1 (upload_empty_file ex_entropy empty_db empty_cache all_offline
                  "empty.txt" None "alice" H)).
Defined.

(** ** An upload whose commit fails *)

(** X12. An upload that ends in an HTTP error ends in 500: no File row
    and no Chunk row has been added, the listing cache of the uploader is
    not invalidated, and the set of reachable nodes is as before. *)
Theorem upload_failed_commit_adds_no_row rnd db cache w file_data filename content_type
    current_user code db' cache' w' :
  upload_file rnd db cache w file_data filename content_type current_user
  = (HTTPException code, db', cache', w') ->
  code = 500
  /\ cache' = cache
  /\ files db' = files db
  /\ map Chunk.id (chunks db') = map Chunk.id (chunks db)
  /\ online w' = online w.
Proof.
  unfold upload_file. cbn zeta.
  set (n := (Zlength file_data + CHUNK_SIZE - 1) / CHUNK_SIZE).
  pose proof (upload_chunks_shape rnd (file_uuid rnd) file_data (Zlength file_data)
                (range n) (mkUploadState db w [] [] file_uploading)) as Hshape.
  cbn zeta in Hshape.
  set (st' := upload_chunks rnd (file_uuid rnd) file_data (Zlength file_data)
                (range n) (mkUploadState db w [] [] file_uploading)) in *.
  destruct Hshape as (Hfiles & Hids & Hshape).
  cbn [u_db u_world u_chunks u_replicas u_file_status] in Hfiles, Hids.
  destruct (commit_inserts _ _ _ _) as [db1|] eqn:Hcommit; [done|].
  intros [= <- <- <- <-]. repeat split; try done.
  destruct Hshape as [(_ & _ & _ & H4 & _)|(pre & k & post & _ & _ & _ & _ & H4 & _)];
    cbn [u_world] in H4; rewrite H4; apply posts_for_online.
Qed.

(** X12 at the second upload of [report.txt] with the same uuids. *)
Lemma upload_failed_commit_adds_no_row_witness :
  colliding_upload.1.1.1 = HTTPException 500
  /\ files colliding_upload.1.1.2 = files ex_db
  /\ map Chunk.id (chunks colliding_upload.1.1.2) = map Chunk.id (chunks ex_db).
Proof.
  destruct (upload_failed_commit_adds_no_row ex_entropy ex_db empty_cache ex_world
              (bytes_of "data") "report.txt" (Some "text/plain"%string) "alice"
              500 colliding_upload.1.1.2 colliding_upload.1.2 colliding_upload.2)
    as (_ & _ & H3 & H4 & _).
  - vm_compute. reflexivity.
  - split; [vm_compute; reflexivity|]. split; [exact H3|exact H4].
Defined.

(** ** An upload returns when the drawn ids are fresh *)

Lemma elem_of_flat_map_sub {A B} (f g : A -> list B) (l : list A) x :
  (forall a y, y ∈ f a -> y ∈ g a) -> x ∈ flat_map f l -> x ∈ flat_map g l.
Proof.
  intros Hfg Hx. apply list_elem_of_In, in_flat_map in Hx as (a & Ha & Hx).
  apply list_elem_of_In, in_flat_map. exists a. split; [done|].
  by apply list_elem_of_In, Hfg, list_elem_of_In.
Qed.

Lemma NoDup_flat_map_sub {A B} (f g : A -> list B) (l : list A) :
  (forall a, NoDup (f a)) -> (forall a y, y ∈ f a -> y ∈ g a) ->
  NoDup (flat_map g l) -> NoDup (flat_map f l).
Proof.
  intros Hf Hfg. induction l as [|a l IH]; simpl; [done|].
  rewrite !NoDup_app. intros (_ & Hdis & Hl). split; [apply Hf|]. split; [|by apply IH].
  intros x Hx Hx'. apply (Hdis x); [by apply Hfg|].
  by apply (elem_of_flat_map_sub f g).
Qed.

Lemma replica_rows_ids rnd i :
  map ChunkReplica.id (replica_rows rnd i)
  = map (replica_id (chunk_uuid rnd i)) (placement rnd i).
Proof. unfold replica_rows. rewrite map_map. done. Qed.

Lemma flat_map_replica_ids rnd proc :
  map ChunkReplica.id (flat_map (replica_rows rnd) proc)
  = flat_map (fun i => map (replica_id (chunk_uuid rnd i)) (placement rnd i)) proc.
Proof.
  induction proc as [|i proc IH]; [done|]. simpl.
  by rewrite map_app, replica_rows_ids, IH.
Qed.

Lemma placement_configured rnd i :
  NoDup (placement rnd i) /\ forall m, m ∈ placement rnd i -> m ∈ STORAGE_NODES.
Proof.
  destruct (assign_storage_nodes_spec (sample_draws rnd i)) as (_ & H2 & H3). done.
Qed.

Lemma replica_ids_of_prefix rnd db proc rest :
  NoDup (candidate_replica_ids rnd (proc ++ rest)) ->
  (forall k, k ∈ candidate_replica_ids rnd (proc ++ rest) ->
     k ∉ map ChunkReplica.id (chunk_replicas db)) ->
  pk_ok (map ChunkReplica.id (chunk_replicas db))
        (map ChunkReplica.id (flat_map (replica_rows rnd) proc)) = true.
Proof.
  intros Hnd Hfresh. unfold candidate_replica_ids in *.
  rewrite flat_map_app in Hnd. apply NoDup_app in Hnd as (Hnd & _ & _).
  pose proof (flat_map_replica_ids rnd proc) as E.
  assert (Hsub : forall i y,
            y ∈ map (replica_id (chunk_uuid rnd i)) (placement rnd i) ->
            y ∈ map (replica_id (chunk_uuid rnd i)) STORAGE_NODES).
  { intros i y Hy. apply list_elem_of_fmap in Hy as (m & -> & Hm).
    apply list_elem_of_fmap_2. by apply (proj2 (placement_configured rnd i)). }
  rewrite E. apply pk_ok_spec. split.
  - eapply NoDup_flat_map_sub; [|exact Hsub|exact Hnd].
    intros i. apply NoDup_fmap_2; [apply _|]. apply (proj1 (placement_configured rnd i)).
  - intros k Hk. apply Hfresh. rewrite flat_map_app. apply elem_of_app. left.
    by apply (elem_of_flat_map_sub _ _ _ _ Hsub).
Qed.

Lemma chunk_ids_of_prefix rnd (db : Db) proc rest :
  NoDup (map (chunk_uuid rnd) (proc ++ rest)) ->
  (forall i, i ∈ proc ++ rest -> chunk_uuid rnd i ∉ map Chunk.id (chunks db)) ->
  pk_ok (map Chunk.id (chunks db)) (map (chunk_uuid rnd) proc) = true.
Proof.
  intros Hnd Hfresh. apply pk_ok_spec. split.
  - rewrite map_app in Hnd. by apply NoDup_app in Hnd as (Hnd & _ & _).
  - intros k Hk. apply list_elem_of_fmap in Hk as (i & -> & Hi).
    apply Hfresh. apply elem_of_app. by left.
Qed.

Lemma chunk_row_id rnd file_id file_data file_size s l :
  map Chunk.id (map (chunk_row rnd file_id file_data file_size s) l)
  = map (chunk_uuid rnd) l.
Proof. rewrite map_map. done. Qed.

(** X13. When the uuids drawn for the file, its chunks and the Replica
    keys built from them collide neither with each other nor with a key of
    the store, the upload returns its response (completed or failed) and
    invalidates the uploader's listing cache; no share is touched. *)
Theorem upload_returns_when_ids_fresh rnd db cache w file_data filename content_type
    current_user :
  fresh_ids rnd db ((Zlength file_data + CHUNK_SIZE - 1) / CHUNK_SIZE) ->
  exists resp db' w',
    upload_file rnd db cache w file_data filename content_type current_user
    = (Ok resp, db', invalidate_user_files cache current_user, w')
    /\ file_shares db' = file_shares db.
Proof.
  intros (Hfile & Hcnd & Hcfresh & Hrnd & Hrfresh). unfold upload_file. cbn zeta.
  set (n := (Zlength file_data + CHUNK_SIZE - 1) / CHUNK_SIZE) in *.
  pose proof (upload_chunks_shape rnd (file_uuid rnd) file_data (Zlength file_data)
                (range n) (mkUploadState db w [] [] file_uploading)) as Hshape.
  cbn zeta in Hshape.
  set (st' := upload_chunks rnd (file_uuid rnd) file_data (Zlength file_data)
                (range n) (mkUploadState db w [] [] file_uploading)) in *.
  destruct Hshape as (_ & _ & Hshape).
  assert (Hcommit : exists proc rest crows,
            range n = proc ++ rest
            /\ u_db st' = db
            /\ map Chunk.id (u_chunks st') = map (chunk_uuid rnd) crows
            /\ (exists rest', proc ++ rest = crows ++ rest')
            /\ u_replicas st' = flat_map (replica_rows rnd) proc).
  { destruct Hshape as [(H1 & H2 & H3 & H4 & H5)
                       |(pre & k & post & H0 & H1 & H2 & H3 & H4 & H5)];
      cbn [u_db u_world u_chunks u_replicas u_file_status app] in H1, H2, H3, H4, H5.
    - destruct H5 as [Hdb _]; [intros i Hi; by apply Hcfresh|].
      exists (range n), [], (range n). rewrite app_nil_r, H2, H3, chunk_row_id.
      split; [done|]. split; [done|]. split; [done|]. split; [exists []; by rewrite app_nil_r|done].
    - destruct H5 as [Hdb _].
      { intros i Hi. apply Hcfresh. rewrite H0.
        apply elem_of_app in Hi as [Hi|Hi]; apply elem_of_app; [by left|right].
        apply list_elem_of_singleton in Hi as ->. apply list_elem_of_here. }
      exists pre, (k :: post), (pre ++ [k]).
      rewrite H2, H3, map_app, chunk_row_id. cbn [map chunk_row Chunk.id].
      rewrite map_app. split; [done|]. split; [done|]. split; [done|].
      split; [|done]. exists post. by rewrite <- app_assoc. }
  destruct Hcommit as (proc & rest & crows & Hrange & Hdb & Hcids & [rest' Hcrows] & Hrep).
  unfold commit_inserts. rewrite Hdb, Hcids, Hrep. cbn [map File.id].
  assert (H1 : pk_ok (map File.id (files db)) [file_uuid rnd] = true).
  { apply pk_ok_spec. split; [apply NoDup_singleton|].
    by intros k ->%list_elem_of_singleton. }
  assert (H2 : pk_ok (map Chunk.id (chunks db)) (map (chunk_uuid rnd) crows) = true).
  { apply (chunk_ids_of_prefix rnd db crows rest'); rewrite <- Hcrows, <- Hrange; done. }
  assert (H3 : pk_ok (map ChunkReplica.id (chunk_replicas db))
                 (map ChunkReplica.id (flat_map (replica_rows rnd) proc)) = true).
  { apply (replica_ids_of_prefix rnd db proc rest); rewrite <- Hrange; done. }
  rewrite H1, H2, H3. cbn [andb]. eauto.
Qed.

(** X13 at an empty store with every node offline. *)
Lemma upload_returns_when_ids_fresh_witness :
  fresh_ids ex_entropy empty_db 1
  /\ exists resp db' w',
       upload_file ex_entropy empty_db empty_cache all_offline (bytes_of "data")
                   "report.txt" None "alice"
       = (Ok resp, db', invalidate_user_files empty_cache "alice", w')
       /\ file_shares db' = file_shares empty_db.
Proof.
  assert (H : fresh_ids ex_entropy empty_db 1).
  { split; [apply not_elem_of_nil|].
    split; [apply (bool_decide_unpack _); vm_compute; exact I|].
    split; [intros i _; apply not_elem_of_nil|].
    split; [apply (bool_decide_unpack _); vm_compute; exact I|].
    intros k _. apply not_elem_of_nil. }
  split; [exact H|].
  exact (upload_returns_when_ids_fresh ex_entropy empty_db empty_cache all_offline
           (bytes_of "data") "report.txt" None "alice" H).
Defined.

(** ** Listing *)

Lemma elem_of_insert_by_updated_at updated_at f l x :
  x ∈ insert_by_updated_at updated_at f l <-> x = f \/ x ∈ l.
Proof.
  induction l as [|y l IH]; simpl.
  - rewrite list_elem_of_singleton, elem_of_nil. tauto.
  - destruct (_ <=? _); rewrite !elem_of_cons; [tauto|]. rewrite IH. tauto.
Qed.

Lemma elem_of_order_by_updated_at updated_at l x :
  x ∈ order_by_updated_at_desc updated_at l <-> x ∈ l.
Proof.
  induction l as [|y l IH]; simpl; [done|].
  rewrite elem_of_insert_by_updated_at, elem_of_cons, IH. done.
Qed.

Lemma newest_first_insert updated_at f l :
  newest_first updated_at l -> newest_first updated_at (insert_by_updated_at updated_at f l).
Proof.
  induction l as [|y l IH]; simpl.
  - intros _. split; [|done]. intros g Hg. by apply elem_of_nil in Hg.
  - intros [Hy Hl]. destruct (_ <=? _) eqn:E.
    + apply Z.leb_le in E. simpl. split; [|done].
      intros g Hg. apply elem_of_cons in Hg as [->|Hg]; [done|].
      specialize (Hy g Hg). lia.
    + apply Z.leb_gt in E. simpl. split; [|by apply IH].
      intros g Hg. apply elem_of_insert_by_updated_at in Hg as [->|Hg]; [lia|].
      by apply Hy.
Qed.

Lemma newest_first_order_by updated_at l :
  newest_first updated_at (order_by_updated_at_desc updated_at l).
Proof. induction l as [|y l IH]; simpl; [done|]. by apply newest_first_insert. Qed.

Lemma list_files_miss updated_at db cache current_user :
  get_user_files cache current_user = None
  \/ get_user_files cache current_user = Some [] ->
  list_files updated_at db cache current_user
  = (let files :=
       order_by_updated_at_desc updated_at
         (List.filter (fun f => bool_decide (File.owner_id f = current_user))
                      (files db)) in
     (file_infos files, set_user_files cache current_user files)).
Proof. intros Hmiss. unfold list_files. by destruct Hmiss as [-> | ->]. Qed.

(** X14. With no listing cached for the user (or an empty one, which the
    truthiness test treats as a miss), the listing holds exactly the File
    rows whose owner is the requester, newest first, and is what the cache
    holds for that user afterwards. When it is not empty, the next listing
    of that user is answered from the cache, whatever the store holds by
    then, with the strings that the cache kept of those rows. *)
Theorem list_files_cache_miss updated_at db cache current_user :
  get_user_files cache current_user = None
  \/ get_user_files cache current_user = Some [] ->
  let r := list_files updated_at db cache current_user in
  exists file_list,
    r.1 = file_infos file_list
    /\ (forall f, f ∈ file_list <-> f ∈ files db /\ File.owner_id f = current_user)
    /\ newest_first updated_at file_list
    /\ get_user_files r.2 current_user = Some file_list
    /\ (file_list <> [] ->
        forall db2, list_files updated_at db2 r.2 current_user
                    = (file_info_strs file_list, r.2)).
Proof.
  intros Hmiss. cbv zeta.
  rewrite (list_files_miss _ _ _ _ Hmiss). cbn [fst snd].
  eexists. split; [reflexivity|]. split; [|split; [|split]].
  - intros f. rewrite elem_of_order_by_updated_at, !list_elem_of_In, filter_In.
    by rewrite bool_decide_eq_true.
  - apply newest_first_order_by.
  - unfold get_user_files, set_user_files; simpl. apply lookup_insert_eq.
  - intros Hne db2. unfold list_files, get_user_files, set_user_files.
    cbn [user_files]. rewrite lookup_insert_eq.
    by destruct (order_by_updated_at_desc _ _).
Qed.

(** X14 at the deployment of [report.txt]. *)
Lemma list_files_cache_miss_witness :
  (list_files (fun _ => 0) ex_db empty_cache "alice").1 = file_infos (files ex_db)
  /\ exists file_list,
       (list_files (fun _ => 0) ex_db empty_cache "bob").1 = file_infos file_list
       /\ (forall f, f ∈ file_list <->
             f ∈ files ex_db /\ File.owner_id f = "bob"%string).
Proof.
  split; [vm_compute; reflexivity|].
  destruct (list_files_cache_miss (fun _ => 0) ex_db empty_cache "bob")
    as (file_list & H1 & H2 & _).
  - left. reflexivity.
  - exists file_list. split; [exact H1|exact H2].
Defined.

(** X15. After an upload that returned, the uploader's next listing is
    read from the store, whatever listing was cached before, and contains
    the new file with the status of the response. *)
Theorem upload_then_list_files updated_at rnd db cache w file_data filename content_type
    current_user resp db' cache' w' :
  upload_file rnd db cache w file_data filename content_type current_user
  = (Ok resp, db', cache', w') ->
  exists file_list f,
    (list_files updated_at db' cache' current_user).1 = file_infos file_list
    /\ f ∈ file_list
    /\ File.id f = resp_file_id resp
    /\ File.filename f = filename
    /\ File.size f = Zlength file_data
    /\ File.status f = resp_status resp.
Proof.
  intros Hup.
  assert (Hc : cache' = invalidate_user_files cache current_user).
  { unfold upload_file in Hup. destruct (commit_inserts _ _ _ _); [|done].
    by injection Hup as _ _ <- _. }
  apply upload_file_outcome in Hup. cbn zeta in Hup.
  destruct Hup as (Hresp & processed & crows & rrows & -> & _).
  rewrite list_files_miss.
  - cbn [fst]. eexists.
    exists (uploaded_file_row rnd file_data filename content_type current_user
              (resp_status resp)).
    split; [reflexivity|]. split; [|by rewrite Hresp].
    apply elem_of_order_by_updated_at, list_elem_of_In, filter_In.
    split; [|by apply bool_decide_eq_true].
    apply list_elem_of_In. cbn [files]. apply elem_of_app. right. apply list_elem_of_here.
  - left. subst cache'. unfold get_user_files, invalidate_user_files; simpl.
    apply lookup_delete_eq.
Qed.

(** X15 at the upload of [report.txt]. *)
Lemma upload_then_list_files_witness :
  exists file_list f,
    (list_files (fun _ => 0) ex_upload.1.1.2 ex_upload.1.2 "alice").1
    = file_infos file_list
    /\ f ∈ file_list
    /\ File.id f = "f1"%string
    /\ File.filename f = "report.txt"%string
    /\ File.size f = 4
    /\ File.status f = file_failed.
Proof.
  apply (upload_then_list_files (fun _ => 0) ex_entropy empty_db empty_cache all_online
           (bytes_of "data") "report.txt" (Some "text/plain"%string) "alice"
           (mkUploadResponse "f1" "report.txt" 4 1 file_failed)
           ex_upload.1.1.2 ex_upload.1.2 ex_upload.2).
  vm_compute. reflexivity.
Defined.

(** ** The chunk cache on the read path *)

(** X16. After a chunk was read from a node, a later read of that chunk
    id is answered from the chunk cache, as text and with no request to
    any node, exactly when the payload is not empty and is valid UTF-8.
    For any other payload the cache gives nothing back and the nodes are
    asked again, the first 200 answer being taken and cached. *)
Theorem retrieve_chunk_read_through cache w chunk_id storage_nodes chunk_data cache' w' :
  retrieve_chunk_from_nodes cache w chunk_id storage_nodes
  = (Some (as_bytes chunk_data), cache', w') ->
  forall w2 storage_nodes2,
    retrieve_chunk_from_nodes cache' w2 chunk_id storage_nodes2
    = if truthy (Some chunk_data) && utf8_valid chunk_data
      then (Some (as_str chunk_data), cache', w2)
      else
        match get_from_nodes w2 chunk_id storage_nodes2 with
        | (Some chunk_data2, w3) =>
            (Some (as_bytes chunk_data2), set_chunk_data cache' chunk_id chunk_data2, w3)
        | (None, w3) => (None, cache', w3)
        end.
Proof.
  intros Hr w2 nodes2.
  assert (Hc : get_chunk_data cache' chunk_id
               = if utf8_valid chunk_data then Some chunk_data else None).
  { rewrite retrieve_chunk_from_nodes_eq in Hr.
    destruct (truthy (get_chunk_data cache chunk_id)) eqn:Ht.
    - by destruct (get_chunk_data cache chunk_id).
    - cbn zeta in Hr. destruct (first_answer w chunk_id storage_nodes); [|done].
      injection Hr as H1 H2 _. subst. apply get_chunk_data_set. }
  unfold retrieve_chunk_from_nodes. rewrite Hc.
  destruct (utf8_valid chunk_data), chunk_data; done.
Qed.

(** X16 for chunk [c1] of [report.txt], read again after all nodes have
    gone offline, and for chunk [c2] of [photo.jpg], read a second time. *)
Lemma retrieve_chunk_read_through_witness :
  (retrieve_chunk_from_nodes empty_cache ex_world "c1" [node1; node2; node3]).1.1
  = Some (as_bytes (bytes_of "data"))
  /\ retrieve_chunk_from_nodes
       (retrieve_chunk_from_nodes empty_cache ex_world "c1" [node1; node2; node3]).1.2
       nodes_gone "c1" [node1; node2; node3]
     = (Some (as_str (bytes_of "data")),
        (retrieve_chunk_from_nodes empty_cache ex_world "c1" [node1; node2; node3]).1.2,
        nodes_gone)
  /\ (retrieve_chunk_from_nodes
        (retrieve_chunk_from_nodes empty_cache bin_world "c2" [node1; node2; node3]).1.2
        bin_world "c2" [node1; node2; node3]).1.1
     = Some (as_bytes jpeg)
  /\ net_log (retrieve_chunk_from_nodes
                (retrieve_chunk_from_nodes empty_cache bin_world "c2"
                   [node1; node2; node3]).1.2
                bin_world "c2" [node1; node2; node3]).2
     = [GET node1 "c2"].
Proof.
  split; [vm_compute; reflexivity|]. split; [|split; vm_compute; reflexivity].
  rewrite (retrieve_chunk_read_through empty_cache ex_world "c1" [node1; node2; node3]
             (bytes_of "data") _
             (retrieve_chunk_from_nodes empty_cache ex_world "c1"
                [node1; node2; node3]).2).
  - reflexivity.
  - vm_compute. reflexivity.
Defined.

(** ** Requests of the read paths *)

Lemma forallb_is_get_map chunk_id nodes :
  forallb is_get (map (fun n => GET n chunk_id) nodes) = true.
Proof. by induction nodes. Qed.

Lemma retrieve_chunks_reads db cs : forall cache w acc,
  exists l, (retrieve_chunks db cache w cs acc).2 = with_log w l
            /\ forallb is_get l = true.
Proof.
  induction cs as [|c cs IH]; intros cache w acc; cbn [retrieve_chunks].
  - exists []. by rewrite with_log_nil.
  - rewrite retrieve_chunk_from_nodes_eq.
    destruct (truthy _) eqn:Ht.
    + destruct (get_chunk_data cache (Chunk.id c)); [|done]. apply IH.
    + cbn zeta. destruct (first_answer _ _ _) as [b|].
      * destruct (IH (set_chunk_data cache (Chunk.id c) b)
                    (with_log w (map (fun n => GET n (Chunk.id c))
                       (tried w (Chunk.id c) (replica_nodes db (Chunk.id c)))))
                    (acc ++ [as_bytes b])) as (l & -> & Hl).
        eexists. rewrite with_log_app. split; [done|].
        by rewrite forallb_app, forallb_is_get_map.
      * eexists. split; [done|]. apply forallb_is_get_map.
Qed.

(** X17. A download, a shared download and a verification leave the set
    of reachable nodes and every chunk file as they were: the requests they
    send are GETs. *)
Theorem read_paths_send_only_gets db cache w :
  (forall file_id current_user, exists l,
     (download_file db cache w file_id current_user).2 = with_log w l
     /\ forallb is_get l = true)
  /\ (forall share_token now, exists l,
        (download_shared_file db cache w share_token now).2 = with_log w l
        /\ forallb is_get l = true)
  /\ (forall file_id, exists l,
        (verify_file_integrity db w file_id).2 = with_log w l
        /\ forallb is_get l = true).
Proof.
  assert (Hnil : exists l, w = with_log w l /\ forallb is_get l = true).
  { exists []. by rewrite with_log_nil. }
  split; [|split].
  - intros file_id current_user. unfold download_file.
    destruct (match get_file_metadata cache file_id with
              | Some m => _ | None => _ end) as [[fr cache1]|]; [|done].
    pose proof (retrieve_chunks_reads db
                  (order_by_chunk_index (chunks_of_file db file_id)) cache1 w []) as H.
    destruct (retrieve_chunks _ _ _ _ _) as [[[l|] c2] w2]; [|done].
    by destruct (bytes_join l).
  - intros share_token now. unfold download_shared_file.
    destruct (match get_share_info cache share_token with
              | Some d => _ | None => _ end) as [[sr cache1]|]; [|done].
    destruct (expired _ _) as [[|]|]; [done| |done].
    set (db1 := if sr_attached sr then _ else _).
    destruct (first _ (files db1)) as [fr|]; [|done].
    pose proof (retrieve_chunks_reads db1
                  (order_by_chunk_index (chunks_of_file db1 (File.id fr))) cache1 w [])
      as H.
    destruct (retrieve_chunks _ _ _ _ _) as [[[l|] c2] w2]; [|done].
    by destruct (bytes_join l).
  - intros file_id. unfold verify_file_integrity.
    destruct (first _ (files db)) as [fr|]; [|done].
    rewrite verify_chunks_eq. eexists. split; [done|].
    induction (chunks_of_file db file_id) as [|c cs IH]; [done|]. simpl.
    rewrite forallb_app, IH, andb_true_r. apply forallb_is_get_map.
Qed.

(** ** Share links *)

(** What a share request that succeeds has written. *)
Lemma create_share_Ok token_uuid id_uuid db file_id expires_in_hours current_user now
    info db' :
  create_share token_uuid id_uuid db file_id expires_in_hours current_user now
  = (Ok info, db') ->
  exists row,
    row = FileShare.mk id_uuid file_id current_user token_uuid (si_expires_at info) 0
    /\ info = mkShareInfo token_uuid ("/share/" ++ token_uuid) (si_expires_at info)
    /\ db' = mkDb (files db) (chunks db) (chunk_replicas db) (file_shares db ++ [row])
    /\ (token_uuid ∉ map FileShare.share_token (file_shares db))
    /\ (id_uuid ∉ map FileShare.id (file_shares db))
    /\ (exists f, f ∈ files db /\ File.id f = file_id /\ File.owner_id f = current_user)
    /\ si_expires_at info
       = match expires_in_hours with
         | None => None
         | Some h => if decide (h = 0) then None else Some (now + h * 3600 * 1000000)
         end.
Proof.
  unfold create_share.
  destruct (first _ (files db)) as [f|] eqn:Hf; [|done].
  apply first_Some_elem in Hf as [Hf Hp]. apply andb_true_iff in Hp as [Hp1 Hp2].
  apply bool_decide_eq_true in Hp1, Hp2.
  set (expiry := match expires_in_hours with None => Some None | Some h => _ end).
  assert (He : forall e, expiry = Some e ->
            e = match expires_in_hours with
                | None => None
                | Some h => if decide (h = 0) then None else Some (now + h * 3600 * 1000000)
                end).
  { subst expiry. intros e. destruct expires_in_hours as [h|]; [|by intros [= <-]].
    destruct (decide (h = 0)); [by intros [= <-]|].
    unfold timedelta_hours, datetime_add. cbv zeta.
    destruct (_ && _); [|done]. destruct (_ && _); [|done]. by intros [= <-]. }
  destruct expiry as [e|]; [|done]. specialize (He e eq_refl).
  unfold commit_share. cbn [FileShare.id FileShare.share_token].
  destruct (pk_ok (map FileShare.id _) _) eqn:H1; [|done].
  destruct (pk_ok (map FileShare.share_token _) _) eqn:H2; [|done].
  apply pk_ok_single in H1, H2. cbn [andb].
  intros [= <- <-]. eexists. split; [reflexivity|]. cbn [si_expires_at].
  repeat split; try done. eauto.
Qed.

(** X20. A share request for a file id of which the requester owns no
    File row is answered 404 and writes nothing. *)
Theorem create_share_requires_owner token_uuid id_uuid db file_id expires_in_hours
    current_user now :
  (forall f, f ∈ files db -> File.id f = file_id -> File.owner_id f <> current_user) ->
  create_share token_uuid id_uuid db file_id expires_in_hours current_user now
  = (HTTPException 404, db).
Proof.
  intros Hown. unfold create_share.
  destruct (first _ (files db)) as [f|] eqn:Hf; [|done].
  apply first_Some_elem in Hf as [Hf Hp]. apply andb_true_iff in Hp as [Hp1 Hp2].
  apply bool_decide_eq_true in Hp1, Hp2. by destruct (Hown f Hf Hp1).
Qed.

(** X20 for [bob], who owns no file. *)
Lemma create_share_requires_owner_witness :
  (forall f, f ∈ files ex_db -> File.id f = "f1"%string -> File.owner_id f <> "bob"%string)
  /\ create_share "tok" "s3" ex_db "f1" (Some 24) "bob" 1000 = (HTTPException 404, ex_db).
Proof.
  assert (H : forall f, f ∈ files ex_db -> File.id f = "f1"%string ->
                        File.owner_id f <> "bob"%string).
  { intros f Hf _. vm_compute in Hf.
    repeat (apply elem_of_cons in Hf as [->|Hf]); [discriminate|].
    by apply elem_of_nil in Hf. }
  split; [exact H|].
  exact (create_share_requires_owner "tok" "s3" ex_db "f1" (Some 24) "bob" 1000 H).
Defined.

(** X21. A share request keeps share ids and share tokens unique, keeps
    every existing share as it is, and touches no other table. *)
Theorem create_share_keeps_keys_unique token_uuid id_uuid db file_id expires_in_hours
    current_user now :
  NoDup (map FileShare.id (file_shares db)) ->
  NoDup (map FileShare.share_token (file_shares db)) ->
  let db' :=
    (create_share token_uuid id_uuid db file_id expires_in_hours current_user now).2 in
  NoDup (map FileShare.id (file_shares db'))
  /\ NoDup (map FileShare.share_token (file_shares db'))
  /\ file_shares db `prefix_of` file_shares db'
  /\ files db' = files db /\ chunks db' = chunks db
  /\ chunk_replicas db' = chunk_replicas db.
Proof.
  intros Hids Htoks. cbv zeta.
  destruct (create_share token_uuid id_uuid db file_id expires_in_hours current_user now)
    as [[info|code] db'] eqn:E.
  - apply create_share_Ok in E as (row & -> & _ & -> & Htok & Hid & _). simpl.
    rewrite !map_app. simpl.
    split; [|split; [|split; [by eexists|done]]].
    + apply NoDup_app. split; [done|]. split; [|apply NoDup_singleton].
      by intros x Hx ->%list_elem_of_singleton.
    + apply NoDup_app. split; [done|]. split; [|apply NoDup_singleton].
      by intros x Hx ->%list_elem_of_singleton.
  - assert (db' = db) as ->.
    { unfold create_share in E.
      destruct (first _ (files db)); [|by injection E as _ <-].
      destruct (match expires_in_hours with None => _ | Some _ => _ end);
        [|by injection E as _ <-].
      destruct (commit_share _ _); [done|]. by injection E as _ <-. }
    simpl. done.
Qed.

(** X21 for a third share of [f1]. *)
Lemma create_share_keeps_keys_unique_witness :
  NoDup (map FileShare.share_token (file_shares ex_share.2))
  /\ file_shares shared_db `prefix_of` file_shares ex_share.2.
Proof.
  destruct (create_share_keeps_keys_unique "tok" "s3" shared_db "f1" (Some 1) "alice" 1000)
    as (_ & H2 & H3 & _).
  - apply (bool_decide_unpack _). vm_compute. exact I.
  - apply (bool_decide_unpack _). vm_compute. exact I.
  - split; [exact H2|exact H3].
Defined.

Lemma shared_cache_miss_410 db cache w share_token now row :
  get_share_info cache share_token = None ->
  first (fun s => bool_decide (FileShare.share_token s = share_token))
        (file_shares db) = Some row ->
  status_code_of (download_shared_file db cache w share_token now).1.1.1 = 410
  <-> exists t, FileShare.expires_at row = Some t /\ t < now.
Proof.
  intros Hmiss Hrow. unfold download_shared_file. rewrite Hmiss, Hrow.
  cbn [sr_expires_at sr_row sr_attached].
  assert (Hrest : forall db1 cache1,
    status_code_of
      (match first (fun f => bool_decide (File.id f = FileShare.file_id row))
                   (files db1) with
       | None => (HTTPException 404, db1, cache1, w)
       | Some file_record =>
           match retrieve_chunks db1 cache1 w
                   (order_by_chunk_index (chunks_of_file db1 (File.id file_record)))
                   [] with
           | (Some chunk_data_list, cache2, w') =>
               match bytes_join chunk_data_list with
               | Some file_data => (Ok file_data, db1, cache2, w')
               | None => (HTTPException 500, db1, cache2, w')
               end
           | (None, cache2, w') => (HTTPException 500, db1, cache2, w')
           end
       end).1.1.1 <> 410).
  { intros db1 cache1. destruct (first _ (files db1)); [|done].
    destruct (retrieve_chunks _ _ _ _ _) as [[[l|] c2] w2]; [|done].
    by destruct (bytes_join l). }
  destruct (FileShare.expires_at row) as [e|]; cbn [expired].
  - destruct (e <? now) eqn:E.
    + apply Z.ltb_lt in E. split; [eauto|done].
    + apply Z.ltb_ge in E. split.
      * intros H. by apply Hrest in H.
      * intros (t' & [= <-] & Hlt). lia.
  - split.
    + intros H. by apply Hrest in H.
    + by intros (t' & [=] & _).
Qed.

(** X22. A share created at time [now] with [expires_in_hours = h] is
    refused with 410 (on a share-info cache miss) exactly when [h] is given,
    is not 0, and the fetch is later than [now] + [h] hours; a share created
    without [expires_in_hours], or with 0, is never refused as expired. *)
Theorem created_share_expiry token_uuid id_uuid db file_id expires_in_hours current_user
    now info db' cache w t :
  create_share token_uuid id_uuid db file_id expires_in_hours current_user now
  = (Ok info, db') ->
  get_share_info cache token_uuid = None ->
  status_code_of (download_shared_file db' cache w token_uuid t).1.1.1 = 410
  <-> exists h, expires_in_hours = Some h /\ h <> 0 /\ now + h * 3600 * 1000000 < t.
Proof.
  intros Hc Hmiss.
  apply create_share_Ok in Hc as (row & Hrow & _ & -> & Htok & _ & _ & Hexp).
  rewrite (shared_cache_miss_410 _ _ _ _ _ row); [|done|].
  2:{ cbn [file_shares]. apply first_app_new.
      - intros y Hy. apply bool_decide_eq_false. intros Hy'. apply Htok.
        rewrite <- Hy'. by apply (list_elem_of_fmap_2 FileShare.share_token).
      - apply bool_decide_eq_true. by rewrite Hrow. }
  assert (Hrexp : FileShare.expires_at row = si_expires_at info) by (by rewrite Hrow).
  rewrite Hrexp, Hexp. split.
  - intros (e & He & Hlt). destruct expires_in_hours as [h|]; [|done].
    destruct (decide (h = 0)); [done|]. injection He as <-. eauto.
  - intros (h & -> & Hne & Hlt). rewrite decide_False by done. eauto.
Qed.

(** X22 for a share of one hour, fetched at the expiry and just after. *)
Lemma created_share_expiry_witness :
  ex_share.1 = Ok (mkShareInfo "tok" "/share/tok" (Some 3600001000))
  /\ status_code_of
       (download_shared_file ex_share.2 empty_cache ex_world "tok" 3600001000).1.1.1
     <> 410
  /\ status_code_of
       (download_shared_file ex_share.2 empty_cache ex_world "tok" 3600001001).1.1.1
     = 410.
Proof.
  assert (E : create_share "tok" "s3" shared_db "f1" (Some 1) "alice" 1000
              = (Ok (mkShareInfo "tok" "/share/tok" (Some 3600001000)), ex_share.2))
    by (vm_compute; reflexivity).
  split; [vm_compute; reflexivity|]. split.
  - intros H.
    apply (created_share_expiry _ _ _ _ _ _ _ _ _ empty_cache ex_world 3600001000 E)
      in H as (h & [= <-] & _ & Hlt); [lia|reflexivity].
  - apply (created_share_expiry _ _ _ _ _ _ _ _ _ empty_cache ex_world 3600001001 E);
      [reflexivity|].
    exists 1. split; [reflexivity|]. split; lia.
Defined.

(** ** A shared download and the owner's download *)

Lemma retrieve_chunks_ext db1 db2 cs : forall c1 c2 w acc,
  chunk_replicas db1 = chunk_replicas db2 ->
  chunk_data c1 = chunk_data c2 ->
  (retrieve_chunks db1 c1 w cs acc).1.1 = (retrieve_chunks db2 c2 w cs acc).1.1
  /\ (retrieve_chunks db1 c1 w cs acc).2 = (retrieve_chunks db2 c2 w cs acc).2.
Proof.
  induction cs as [|c cs IH]; intros c1 c2 w acc Hrep Hcd; cbn [retrieve_chunks]; [done|].
  assert (Hn : replica_nodes db1 (Chunk.id c) = replica_nodes db2 (Chunk.id c))
    by (unfold replica_nodes; by rewrite Hrep).
  assert (Hg : get_chunk_data c1 (Chunk.id c) = get_chunk_data c2 (Chunk.id c))
    by (unfold get_chunk_data; by rewrite Hcd).
  rewrite Hn, !retrieve_chunk_from_nodes_eq, Hg.
  destruct (truthy _).
  - destruct (get_chunk_data c2 (Chunk.id c)); [by apply IH|done].
  - cbn zeta. destruct (first_answer _ _ _) as [d|]; [|done].
    apply IH; [done|]. unfold set_chunk_data; cbn [chunk_data]. by rewrite Hcd.
Qed.

(** X25. With nothing cached for the share and the file, a shared fetch
    through a share that has not expired ends as the owner's download of
    the file does (the same bytes or the same error) and sends the same
    requests. *)
Theorem shared_download_returns_owner_bytes db cache w share_token now row file_record :
  get_share_info cache share_token = None ->
  first (fun s => bool_decide (FileShare.share_token s = share_token))
        (file_shares db) = Some row ->
  (forall t, FileShare.expires_at row = Some t -> now <= t) ->
  get_file_metadata cache (FileShare.file_id row) = None ->
  first (fun f => bool_decide (File.id f = FileShare.file_id row)
                  && bool_decide (File.owner_id f = FileShare.owner_id row))
        (files db) = Some file_record ->
  let shared := download_shared_file db cache w share_token now in
  let own :=
    download_file db cache w (FileShare.file_id row) (FileShare.owner_id row) in
  shared.1.1.1 = own.1.1 /\ shared.2 = own.2.
Proof.
  intros Hmiss Hrow Hexp Hmeta Hfile. cbv zeta.
  unfold download_shared_file, download_file. rewrite Hmiss, Hrow, Hmeta, Hfile.
  cbn [sr_expires_at sr_row sr_attached].
  assert (He : expired (match FileShare.expires_at row with
                        | Some t => py_datetime t
                        | None => py_none
                        end) now = Some false).
  { destruct (FileShare.expires_at row) as [t|]; [|done]. cbn [expired].
    f_equal. apply Z.ltb_ge. by apply Hexp. }
  rewrite He.
  set (db1 := update_share_access_count _ _ db).
  destruct (first (fun f => bool_decide (File.id f = FileShare.file_id row))
                  (files db1)) as [fr|] eqn:Hfr.
  - apply first_Some_elem in Hfr as [_ Hid]. apply bool_decide_eq_true in Hid.
    rewrite Hid.
    destruct (retrieve_chunks_ext db1 db
                (order_by_chunk_index (chunks_of_file db (FileShare.file_id row)))
                (set_share_info cache share_token row)
                (set_file_metadata cache (FileShare.file_id row) file_record)
                w []) as [H1 H2]; [done|done|].
    change (chunks_of_file db1 (FileShare.file_id row))
      with (chunks_of_file db (FileShare.file_id row)).
    destruct (retrieve_chunks db1 _ _ _ _) as [[[l|] c2] w2];
      destruct (retrieve_chunks db _ _ _ _) as [[[l'|] c2'] w2'];
      cbn [fst snd] in H1, H2; simplify_eq; try done.
    by destruct (bytes_join l').
  - exfalso. apply first_Some_elem in Hfile as [Hin Hp].
    apply andb_true_iff in Hp as [Hp _].
    unfold first in Hfr. subst db1. cbn [files update_share_access_count] in Hfr.
    pose proof (find_none _ _ Hfr file_record (proj1 (list_elem_of_In _ _) Hin)).
    congruence.
Qed.

(** X25 through the share [open]. *)
Lemma shared_download_returns_owner_bytes_witness :
  (download_shared_file shared_db empty_cache ex_world "open" 50).1.1.1
  = (download_file shared_db empty_cache ex_world "f1" "alice").1.1
  /\ (download_file shared_db empty_cache ex_world "f1" "alice").1.1 = Ok (bytes_of "data").
Proof.
  split; [|vm_compute; reflexivity].
  apply (shared_download_returns_owner_bytes shared_db empty_cache ex_world "open" 50
           share_open
           (File.mk "f1" "report.txt" "alice" 4 "text/plain" 1 file_completed
              "3a6eb0790f39ac87c94f3856b2dd2c5d110e6811602261a9a923d3bb23adc8b7" 1)).
  - reflexivity.
  - reflexivity.
  - intros t Ht. discriminate Ht.
  - reflexivity.
  - reflexivity.
Defined.

(** ** Removing expired shares *)

Lemma NoDup_map_inj {A} (f : A -> string) (l : list A) x y :
  NoDup (map f l) -> x ∈ l -> y ∈ l -> f x = f y -> x = y.
Proof.
  induction l as [|a l IH]; simpl; intros Hnd Hx Hy Hf; [by apply elem_of_nil in Hx|].
  apply NoDup_cons in Hnd as [Ha Hnd].
  apply elem_of_cons in Hx as [->|Hx]; apply elem_of_cons in Hy as [->|Hy]; try done.
  - exfalso. apply Ha. rewrite Hf. by apply (list_elem_of_fmap_2 f).
  - exfalso. apply Ha. rewrite <- Hf. by apply (list_elem_of_fmap_2 f).
  - by apply IH.
Qed.

Lemma filter_ext_elem {A} (p q : A -> bool) (l : list A) :
  (forall x, x ∈ l -> p x = q x) -> List.filter p l = List.filter q l.
Proof.
  induction l as [|a l IH]; intros H; [done|]. simpl.
  rewrite (H a (list_elem_of_here _ _)), IH; [done|].
  intros x Hx. apply H. by apply list_elem_of_further.
Qed.

Lemma Zlength_filter_split {A} (p : A -> bool) (l : list A) :
  Zlength l = Zlength (List.filter p l) + Zlength (List.filter (fun x => negb (p x)) l).
Proof.
  induction l as [|a l IH]; [done|]. simpl. rewrite Zlength_cons.
  destruct (p a); simpl; rewrite Zlength_cons; lia.
Qed.

Lemma cleanup_shares db now :
  NoDup (map FileShare.id (file_shares db)) ->
  file_shares (cleanup_expired_shares db now).2
  = List.filter (fun s => negb (expires_before now s)) (file_shares db).
Proof.
  intros Hnd. unfold cleanup_expired_shares. cbn [snd file_shares].
  apply filter_ext_elem. intros s Hs. f_equal.
  destruct (expires_before now s) eqn:E.
  - apply bool_decide_eq_true. apply (list_elem_of_fmap_2 FileShare.id).
    apply list_elem_of_In, filter_In. split; [by apply list_elem_of_In|done].
  - apply bool_decide_eq_false. intros Hin.
    apply list_elem_of_fmap in Hin as (s' & Hid & Hs').
    apply list_elem_of_In, filter_In in Hs' as [Hs' Hp]. apply list_elem_of_In in Hs'.
    assert (s = s') as <- by (by apply (NoDup_map_inj FileShare.id (file_shares db))).
    congruence.
Qed.

(** X26. The cleanup task removes exactly the shares whose [expires_at] is
    before [now] (a share without expiry is never removed), reports their
    number, touches no other table, and a second run at the same time
    removes nothing. *)
Theorem cleanup_removes_exactly_expired db now :
  NoDup (map FileShare.id (file_shares db)) ->
  let r := cleanup_expired_shares db now in
  (forall s, s ∈ file_shares r.2 <->
     s ∈ file_shares db
     /\ (forall t, FileShare.expires_at s = Some t -> now <= t))
  /\ r.1 = Zlength (file_shares db) - Zlength (file_shares r.2)
  /\ files r.2 = files db /\ chunks r.2 = chunks db
  /\ chunk_replicas r.2 = chunk_replicas db
  /\ cleanup_expired_shares r.2 now = (0, r.2).
Proof.
  intros Hnd. cbv zeta. pose proof (cleanup_shares db now Hnd) as Hsh.
  split; [|split; [|split; [done|split; [done|split; [done|]]]]].
  - intros s. rewrite Hsh, !list_elem_of_In, filter_In, negb_true_iff.
    unfold expires_before. split; intros [H1 H2]; (split; [done|]).
    + intros t Ht. rewrite Ht in H2. by apply Z.ltb_ge in H2.
    + destruct (FileShare.expires_at s) as [t|]; [|done].
      apply Z.ltb_ge. by apply H2.
  - rewrite Hsh. cbn [cleanup_expired_shares fst].
    rewrite (Zlength_filter_split (expires_before now) (file_shares db)). lia.
  - assert (Hnone : List.filter (expires_before now)
                      (file_shares (cleanup_expired_shares db now).2) = []).
    { rewrite Hsh. apply filter_none. intros s Hs.
      apply list_elem_of_In, filter_In in Hs as [_ Hs]. by apply negb_true_iff in Hs. }
    unfold cleanup_expired_shares at 1. rewrite Hnone. cbn [map Zlength].
    f_equal. destruct (cleanup_expired_shares db now).2 as [f c r sh]. cbn.
    f_equal. apply filter_all. intros s Hs. by rewrite bool_decide_eq_false_2
      by (apply not_elem_of_nil).
Qed.

(** X26 at time 150, when only the share [brief] has expired. *)
Lemma cleanup_removes_exactly_expired_witness :
  NoDup (map FileShare.id (file_shares shared_db))
  /\ (cleanup_expired_shares shared_db 150).1
     = Zlength (file_shares shared_db)
       - Zlength (file_shares (cleanup_expired_shares shared_db 150).2)
  /\ cleanup_expired_shares (cleanup_expired_shares shared_db 150).2 150
     = (0, (cleanup_expired_shares shared_db 150).2).
Proof.
  assert (H : NoDup (map FileShare.id (file_shares shared_db)))
    by (apply (bool_decide_unpack _); vm_compute; exact I).
  split; [exact H|].
  destruct (cleanup_removes_exactly_expired shared_db 150 H) as (_ & H2 & _ & _ & _ & H6).
  split; [exact H2|exact H6].
Defined.

(** X27. After the cleanup at time [now], on a share-info cache miss: no
    shared fetch at or before [now] is refused as expired (410); and,
    share tokens being unique, the token of a share that the cleanup
    removed is answered 404 at any time, nothing being written, cached or
    requested. *)
Theorem cleanup_then_fetch_not_expired db now cache w share_token :
  NoDup (map FileShare.id (file_shares db)) ->
  NoDup (map FileShare.share_token (file_shares db)) ->
  get_share_info cache share_token = None ->
  (forall t, t <= now ->
     status_code_of
       (download_shared_file (cleanup_expired_shares db now).2 cache w share_token t).1.1.1
     <> 410)
  /\ (forall row t,
        row ∈ file_shares db -> FileShare.share_token row = share_token ->
        expires_before now row = true ->
        download_shared_file (cleanup_expired_shares db now).2 cache w share_token t
        = (HTTPException 404, (cleanup_expired_shares db now).2, cache, w)).
Proof.
  intros Hnd Hndt Hmiss. split.
  - intros t Ht.
    destruct (first (fun s => bool_decide (FileShare.share_token s = share_token))
                (file_shares (cleanup_expired_shares db now).2)) as [row|] eqn:Hrow.
    + rewrite (shared_cache_miss_410 _ _ _ _ _ row Hmiss Hrow).
      intros (e & He & Hlt). apply first_Some_elem in Hrow as [Hin _].
      rewrite cleanup_shares in Hin by done.
      apply list_elem_of_In, filter_In in Hin as [_ Hp].
      apply negb_true_iff in Hp. unfold expires_before in Hp. rewrite He in Hp.
      apply Z.ltb_ge in Hp. lia.
    + unfold download_shared_file. rewrite Hmiss, Hrow. done.
  - intros row t Hrow Htok Hexp.
    assert (Hnone : first (fun s => bool_decide (FileShare.share_token s = share_token))
                      (file_shares (cleanup_expired_shares db now).2) = None).
    { destruct (first _ _) as [s|] eqn:Hs; [|done]. exfalso.
      apply first_Some_elem in Hs as [Hin Hp]. apply bool_decide_eq_true in Hp.
      rewrite cleanup_shares in Hin by done.
      apply list_elem_of_In, filter_In in Hin as [Hin Hkeep].
      apply list_elem_of_In in Hin.
      assert (s = row) as ->.
      { apply (NoDup_map_inj FileShare.share_token (file_shares db)); try done.
        congruence. }
      rewrite Hexp in Hkeep. done. }
    unfold download_shared_file. rewrite Hmiss, Hnone. done.
Qed.

(** X27 for the share [brief], fetched at time 120. *)
Lemma cleanup_then_fetch_not_expired_witness :
  (download_shared_file shared_db empty_cache ex_world "brief" 120).1.1.1
  = HTTPException 410
  /\ share_brief ∈ file_shares shared_db
  /\ download_shared_file (cleanup_expired_shares shared_db 150).2 empty_cache
       ex_world "brief" 120
     = (HTTPException 404, (cleanup_expired_shares shared_db 150).2, empty_cache,
        ex_world).
Proof.
  split; [vm_compute; reflexivity|].
  assert (Hin : share_brief ∈ file_shares shared_db)
    by (apply list_elem_of_further, list_elem_of_here).
  split; [exact Hin|].
  destruct (cleanup_then_fetch_not_expired shared_db 150 empty_cache ex_world "brief")
    as [_ H].
  - apply (bool_decide_unpack _). vm_compute. exact I.
  - apply (bool_decide_unpack _). vm_compute. exact I.
  - reflexivity.
  - apply (H share_brief 120 Hin); reflexivity.
Defined.

(** ** Verifying again *)

Lemma first_update_file_status db file_id s file_record :
  first (fun f => bool_decide (File.id f = file_id)) (files db) = Some file_record ->
  first (fun f => bool_decide (File.id f = file_id))
        (files (update_file_status file_id s db))
  = Some (File.set_status s file_record).
Proof.
  unfold update_file_status, first; cbn [files].
  induction (files db) as [|g l IH]; simpl; [done|].
  destruct (decide (File.id g = file_id)) as [Hg|Hg].
  - rewrite bool_decide_eq_true_2 by done. cbn [File.set_status File.id].
    rewrite bool_decide_eq_true_2 by done. by intros [= ->].
  - by rewrite bool_decide_eq_false_2.
Qed.

Lemma update_file_status_idem db file_id s :
  update_file_status file_id s (update_file_status file_id s db)
  = update_file_status file_id s db.
Proof.
  unfold update_file_status; cbn [files chunks chunk_replicas file_shares]. f_equal.
  rewrite map_map. apply map_ext. intros f.
  destruct (decide (File.id f = file_id)) as [Hf|Hf].
  - cbn [File.set_status File.id]. by rewrite decide_True.
  - by rewrite decide_False.
Qed.

(** X30. Verifying a file a second time, on the store and the nodes as
    the first run left them, returns the same result and leaves the store
    as the first run left it. *)
Theorem verify_again_same_result db w file_id :
  let r := verify_file_integrity db w file_id in
  (verify_file_integrity r.1.2 r.2 file_id).1 = r.1.
Proof.
  cbv zeta.
  destruct (first (fun f => bool_decide (File.id f = file_id)) (files db))
    as [file_record|] eqn:Hf.
  - rewrite (verify_file_integrity_eq _ _ _ _ Hf). cbn zeta. cbn [fst snd].
    set (s := match flat_map (verify_entry db w) (chunks_of_file db file_id) with
              | [] => file_verified
              | _ => file_corrupted
              end).
    rewrite (verify_file_integrity_eq _ _ _ _ (first_update_file_status _ _ s _ Hf)).
    cbn zeta. cbn [fst].
    assert (E : flat_map (verify_entry (update_file_status file_id s db)
                            (with_log w (flat_map (verify_requests db w)
                                           (chunks_of_file db file_id))))
                         (chunks_of_file (update_file_status file_id s db) file_id)
                = flat_map (verify_entry db w) (chunks_of_file db file_id)).
    { apply flat_map_ext. intros c. by rewrite verify_entry_with_log. }
    rewrite E. fold s. by rewrite update_file_status_idem.
  - unfold verify_file_integrity. rewrite Hf. cbn [fst snd]. by rewrite Hf.
Qed.

(** ** Authorization, shared fetches and verification at the deployment *)

(** X18 at the deployment of [report.txt]. *)
Lemma download_cache_miss_requires_owner_witness :
  get_file_metadata empty_cache "f1" = None
  /\ download_file ex_db empty_cache ex_world "f1" "bob"
     = (HTTPException 404, empty_cache, ex_world).
Proof.
  split; [reflexivity|].
  apply (download_cache_miss_requires_owner ex_db empty_cache ex_world "f1" "bob").
  - reflexivity.
  - intros f Hf _. vm_compute in Hf.
    repeat (apply elem_of_cons in Hf as [->|Hf]); [discriminate|].
    by apply elem_of_nil in Hf.
Defined.

(** X19 at the deployment of [report.txt]. *)
Lemma download_cache_hit_ignores_requester_witness :
  is_Some (get_file_metadata cache_after_owner_download "f1")
  /\ download_file ex_db cache_after_owner_download ex_world "f1" "alice"
     = download_file ex_db cache_after_owner_download ex_world "f1" "bob".
Proof.
  assert (H : is_Some (get_file_metadata cache_after_owner_download "f1"))
    by (eexists; vm_compute; reflexivity).
  split; [exact H|].
  exact (download_cache_hit_ignores_requester ex_db cache_after_owner_download ex_world
           "f1" "alice" "bob" H).
Defined.

(** X23 at the deployment of [report.txt]. *)
Lemma shared_success_cache_miss_witness :
  open_fetch1.1.1.1 = Ok (bytes_of "data")
  /\ open_fetch1.1.1.2 = update_share_access_count "s1" 1 shared_db.
Proof.
  split; [vm_compute; reflexivity|].
  apply (shared_success_cache_miss shared_db empty_cache ex_world "open" 50 share_open
           (bytes_of "data") open_fetch1.1.1.2 open_fetch1.1.2 open_fetch1.2).
  - reflexivity.
  - reflexivity.
  - vm_compute. reflexivity.
Defined.

(** X24 at the deployment of [report.txt]. *)
Lemma shared_cache_hit_db_unchanged_witness :
  is_Some (get_share_info open_fetch1.1.2 "open")
  /\ open_fetch2.1.1.2 = open_fetch1.1.1.2.
Proof.
  assert (H : is_Some (get_share_info open_fetch1.1.2 "open"))
    by (eexists; vm_compute; reflexivity).
  split; [exact H|].
  exact (shared_cache_hit_db_unchanged open_fetch1.1.1.2 open_fetch1.1.2 open_fetch1.2
           "open" 60 H).
Defined.

(** X28 at the deployment of [report.txt]. *)
Lemma verify_all_match_verified_witness :
  exists w',
    verify_file_integrity ex_db ex_world "f1"
    = (verify_done "f1" file_verified [],
       update_file_status "f1" file_verified ex_db, w').
Proof.
  apply (verify_all_match_verified ex_db ex_world "f1"
           (File.mk "f1" "report.txt" "alice" 4 "text/plain" 1 file_completed
              "3a6eb0790f39ac87c94f3856b2dd2c5d110e6811602261a9a923d3bb23adc8b7" 1)).
  - reflexivity.
  - intros chunk Hc. vm_compute in Hc.
    repeat (apply elem_of_cons in Hc as [->|Hc]); [|by apply elem_of_nil in Hc].
    exists (bytes_of "data"). split; [discriminate|].
    split; vm_compute; reflexivity.
Defined.

(** X29 at the deployment of [report.txt]. *)
Lemma verify_mismatch_reported_witness :
  exists corrupted_chunks w',
    verify_file_integrity ex_db tampered_world "f1"
    = (verify_done "f1" file_corrupted corrupted_chunks,
       update_file_status "f1" file_corrupted ex_db, w')
    /\ checksum_mismatch "c1"
         "3a6eb0790f39ac87c94f3856b2dd2c5d110e6811602261a9a923d3bb23adc8b7"
         (SHA256.hexdigest (bytes_of "evil"))
       ∈ corrupted_chunks.
Proof.
  apply (verify_mismatch_reported ex_db tampered_world "f1"
           (File.mk "f1" "report.txt" "alice" 4 "text/plain" 1 file_completed
              "3a6eb0790f39ac87c94f3856b2dd2c5d110e6811602261a9a923d3bb23adc8b7" 1)
           (Chunk.mk "c1" "f1" 0 4
              "3a6eb0790f39ac87c94f3856b2dd2c5d110e6811602261a9a923d3bb23adc8b7"
              chunk_stored)
           (bytes_of "evil")).
  - reflexivity.
  - apply list_elem_of_In. simpl. left. reflexivity.
  - vm_compute. reflexivity.
  - discriminate.
  - vm_compute. discriminate.
Defined.
